(** * CNNTransformerSE: the speech-enhancement transformer wrapper

    A shallow embedding of
    [speechbrain/lobes/models/transformer/TransformerSE.py].

    The file defines one class, [CNNTransformerSE], with a constructor and a
    [forward] method.  Both only wire collaborators together: the
    [TransformerInterface] base class (which provides [self.encoder]), the
    [Linear] layer, the [get_lookahead_mask] utility, the activation classes
    handed in by the caller and the optional [custom_emb_module].

    Modelling choices.
    - A tensor of rank 3 is a nested list (batch, time, feature).  The scalar
      type [R] is a parameter of the development: nothing in the wiring looks
      at a scalar, so every statement of the first part holds for any carrier.
    - A Python call either returns or raises: [result].
    - [forward] assigns [self.attn_mask]; the instance is threaded as state and
      the assignment survives an exception raised later in the call.
    - Every call of a collaborator is appended to a trace together with its
      outcome, so that the order of the calls, their arguments and their
      number are observable.
    - The imported names [TransformerInterface], [Linear] and
      [get_lookahead_mask] are parameters of the section [Component]: their
      code lives in other files of the repository. *)

From Stdlib Require Import QArith String Lia Reals Lra.
From stdpp Require Import base option list.

Close Scope Q_scope.
Local Open Scope nat_scope.

(** ** Data model *)

(** A Python exception, rendered as text. *)
Definition exn := string.

Inductive result (A : Type) : Type :=
| Ok (a : A)
| Raise (e : exn).
Arguments Ok {A} a.
Arguments Raise {A} e.

Global Instance result_ret : MRet result := λ A a, Ok a.

Global Instance result_bind : MBind result :=
  λ A B k r,
    match r with
    | Ok a => k a
    | Raise e => Raise e
    end.

Global Instance result_fmap : FMap result :=
  λ A B f r,
    match r with
    | Ok a => Ok (f a)
    | Raise e => Raise e
    end.

Definition raised_by {A : Type} (r : result A) : option exn :=
  match r with
  | Ok _ => None
  | Raise e => Some e
  end.

(** batch x time x feature *)
Abbreviation frame R := (list R) (only parsing).
Abbreviation tensor R := (list (list (list R))) (only parsing).

(** The lengths of the three levels of nesting. *)
Definition dims {R : Type} (x : tensor R) : list (list nat) :=
  (λ u : list (list R), length <$> u) <$> x.

(** [x.shape == (B, T, F)] *)
Definition has_shape {R : Type} (B T F : nat) (x : tensor R) : Prop :=
  dims x = replicate B (replicate T F).

Global Instance has_shape_dec {R : Type} (B T F : nat) (x : tensor R)
  : Decision (has_shape B T F x).
Proof. unfold has_shape. apply _. Defined.

(** Every scalar of the tensor satisfies [P]. *)
Definition all_elements {R : Type} (P : R → Prop) (x : tensor R) : Prop :=
  Forall (Forall (Forall P)) x.

(** [mask !! i !! j = Some true]: position [i] may not attend to position [j]. *)
Abbreviation mask := (list (list bool)) (only parsing).

(** batch x time; [true] marks a padded position. *)
Abbreviation padding_mask := (list (list bool)) (only parsing).

(** A callable sub-module: tensor in, tensor out, or an exception. *)
Definition module (R : Type) : Type := tensor R → result (tensor R).

(** A class whose instances are modules; calling the class instantiates it. *)
Definition module_class (R : Type) : Type := unit → result (module R).

(** What the encoder returns next to its output: one attention map
    (batch x time x time) per layer. *)
Abbreviation diagnostics R := (list (tensor R)) (only parsing).

(** [encoder(src=..., src_mask=..., src_key_padding_mask=...)] *)
Definition encoder_module (R : Type) : Type :=
  tensor R → option mask → option padding_mask →
  result (tensor R * diagnostics R).

(** A Python attribute that may not have been assigned yet. *)
Inductive attribute (A : Type) : Type :=
| Unset
| Bound (v : A).
Arguments Unset {A}.
Arguments Bound {A} v.

(** The keyword arguments of [TransformerInterface.__init__] that the
    constructor passes. *)
Record interface_args (R : Type) : Type := InterfaceArgs {
  ti_nhead : nat;
  ti_input_size : nat;
  ti_num_encoder_layers : nat;
  ti_num_decoder_layers : nat;
  ti_d_ffn : nat;
  ti_dropout : Q;
  ti_activation : module_class R;
  ti_positional_encoding : bool;
}.
Arguments InterfaceArgs {R}.
Arguments ti_nhead {R}.
Arguments ti_input_size {R}.
Arguments ti_num_encoder_layers {R}.
Arguments ti_num_decoder_layers {R}.
Arguments ti_d_ffn {R}.
Arguments ti_dropout {R}.
Arguments ti_activation {R}.
Arguments ti_positional_encoding {R}.

(** The arguments of [CNNTransformerSE.__init__]. *)
Module Args.
Record t (R : Type) : Type := Make {
  output_size : nat;
  input_size : nat;
  output_activation : module_class R;
  nhead : nat;
  num_layers : nat;
  d_ffn : nat;
  dropout : Q;
  activation : module_class R;
  causal : bool;
  custom_emb_module : option (module R);
}.
Arguments Make {R}.
Arguments output_size {R}.
Arguments input_size {R}.
Arguments output_activation {R}.
Arguments nhead {R}.
Arguments num_layers {R}.
Arguments d_ffn {R}.
Arguments dropout {R}.
Arguments activation {R}.
Arguments causal {R}.
Arguments custom_emb_module {R}.

(** The defaults of the signature: [output_activation=nn.ReLU], [nhead=8],
    [num_layers=8], [d_ffn=512], [dropout=0.1], [activation=nn.LeakyReLU],
    [causal=True], [custom_emb_module=None]. *)
Definition defaults {R : Type} (ReLU LeakyReLU : module_class R)
    (output_size input_size : nat) : t R :=
  Make output_size input_size ReLU 8 8 512 (1 # 10)%Q LeakyReLU true None.
End Args.

(** The attributes of an instance that the file reads or writes. *)
Record CNNTransformerSE (R : Type) : Type := Self {
  encoder : encoder_module R;
  custom_emb_module : option (module R);
  causal : bool;
  output_layer : module R;
  output_activation : module R;
  attn_mask : attribute (option mask);
}.
Arguments Self {R}.
Arguments encoder {R}.
Arguments custom_emb_module {R}.
Arguments causal {R}.
Arguments output_layer {R}.
Arguments output_activation {R}.
Arguments attn_mask {R}.

(** [self.attn_mask = v] *)
Definition assign_attn_mask {R : Type} (v : option mask)
    (self : CNNTransformerSE R) : CNNTransformerSE R :=
  Self (encoder self) (custom_emb_module self) (causal self)
           (output_layer self) (output_activation self) (Bound v).

(** ** Calls of collaborators *)

Inductive call (R : Type) : Type :=
| call_TransformerInterface (kwargs : interface_args R)
| call_Linear (n_neurons input_size : nat) (bias : bool)
| call_output_activation_class
| call_get_lookahead_mask (x : tensor R)
| call_custom_emb_module (x : tensor R)
| call_encoder (src : tensor R) (src_mask : option mask)
               (src_key_padding_mask : option padding_mask)
| call_output_layer (x : tensor R)
| call_output_activation (x : tensor R).
Arguments call_TransformerInterface {R}.
Arguments call_Linear {R}.
Arguments call_output_activation_class {R}.
Arguments call_get_lookahead_mask {R}.
Arguments call_custom_emb_module {R}.
Arguments call_encoder {R}.
Arguments call_output_layer {R}.
Arguments call_output_activation {R}.

(** Which collaborator a call goes to. *)
Inductive collaborator : Type :=
| TransformerInterface_class
| Linear_class
| output_activation_class
| mask_generator
| embedding_module
| encoder_stack
| linear_projection
| activation_module.

Definition callee {R : Type} (c : call R) : collaborator :=
  match c with
  | call_TransformerInterface _ => TransformerInterface_class
  | call_Linear _ _ _ => Linear_class
  | call_output_activation_class => output_activation_class
  | call_get_lookahead_mask _ => mask_generator
  | call_custom_emb_module _ => embedding_module
  | call_encoder _ _ _ => encoder_stack
  | call_output_layer _ => linear_projection
  | call_output_activation _ => activation_module
  end.

Global Instance collaborator_eq_dec : EqDecision collaborator.
Proof. solve_decision. Defined.

(** One entry of the trace: the call and the exception it raised, if any. *)
Record event (R : Type) : Type := Event {
  ev_call : call R;
  ev_raised : option exn;
}.
Arguments Event {R}.
Arguments ev_call {R}.
Arguments ev_raised {R}.

(** ** The monad: state, trace and exceptions

    [S] is the state a computation may assign to.  A raised exception keeps
    the state and the trace reached so far, as in Python. *)

Definition M (R S A : Type) : Type :=
  S * list (event R) → result A * (S * list (event R)).

Global Instance M_ret {R S} : MRet (M R S) :=
  λ A a w, (Ok a, w).

Global Instance M_bind {R S} : MBind (M R S) :=
  λ A B k m w,
    match m w with
    | (Ok a, w') => k a w'
    | (Raise e, w') => (Raise e, w')
    end.

(** Call a collaborator: its outcome is the outcome of the call, and the call
    is recorded. *)
Definition invoke {R S A : Type} (c : call R) (r : result A) : M R S A :=
  λ w, (r, (w.1, w.2 ++ [Event c (raised_by r)])).

(** [self.name] for an attribute that is always there. *)
Definition getattr {R S A : Type} (name : S → A) : M R S A :=
  λ w, (Ok (name w.1), w).

(** [self.attn_mask], which exists only once it has been assigned. *)
Definition getattr_attn_mask {R : Type}
    : M R (CNNTransformerSE R) (option mask) :=
  λ w,
    match attn_mask w.1 with
    | Bound v => (Ok v, w)
    | Unset =>
        (Raise "AttributeError: 'CNNTransformerSE' object has no attribute 'attn_mask'"%string,
         w)
    end.

(** [self.attn_mask = v] *)
Definition setattr_attn_mask {R : Type} (v : option mask)
    : M R (CNNTransformerSE R) unit :=
  λ w, (Ok tt, (assign_attn_mask v w.1, w.2)).

(** ** The class *)

Section Component.
Context {R : Type}.

(** The names the file imports. *)
Variable TransformerInterface : interface_args R → result (encoder_module R).
Variable Linear : nat → nat → bool → result (module R).
Variable get_lookahead_mask : tensor R → result mask.

(** [CNNTransformerSE.__init__]: the base class is initialised first, then
    the four attributes are bound in the order of the source.  The state of
    the computation is [unit]: there is nothing to assign to before the
    instance exists; a failing call leaves no instance. *)
Definition __init__ (args : Args.t R) : M R unit (CNNTransformerSE R) :=
  encoder ← invoke
    (call_TransformerInterface
       (InterfaceArgs (Args.nhead args) (Args.input_size args)
          (Args.num_layers args) 0 (Args.d_ffn args) (Args.dropout args)
          (Args.activation args) false))
    (TransformerInterface
       (InterfaceArgs (Args.nhead args) (Args.input_size args)
          (Args.num_layers args) 0 (Args.d_ffn args) (Args.dropout args)
          (Args.activation args) false));
  let custom_emb_module := Args.custom_emb_module args in
  let causal := Args.causal args in
  output_layer ← invoke
    (call_Linear (Args.output_size args) (Args.input_size args) false)
    (Linear (Args.output_size args) (Args.input_size args) false);
  output_activation ← invoke call_output_activation_class
    (Args.output_activation args tt);
  mret (Self encoder custom_emb_module causal output_layer
          output_activation Unset).

(** [CNNTransformerSE.forward] *)
Definition forward (x : tensor R) (src_key_padding_mask : option padding_mask)
    : M R (CNNTransformerSE R) (tensor R) :=
  causal ← getattr causal;
  (if causal : bool
   then m ← invoke (call_get_lookahead_mask x) (get_lookahead_mask x);
        setattr_attn_mask (Some m)
   else setattr_attn_mask None);;
  custom_emb_module ← getattr custom_emb_module;
  x ← match custom_emb_module with
      | Some emb => invoke (call_custom_emb_module x) (emb x)
      | None => mret x
      end;
  encoder ← getattr encoder;
  src_mask ← getattr_attn_mask;
  '(encoder_output, _) ← invoke
    (call_encoder x src_mask src_key_padding_mask)
    (encoder x src_mask src_key_padding_mask);
  output_layer ← getattr output_layer;
  output ← invoke (call_output_layer encoder_output)
    (output_layer encoder_output);
  output_activation ← getattr output_activation;
  output ← invoke (call_output_activation output) (output_activation output);
  mret output.

(** ** The pipeline as the specification words it

    Steps (1) to (5), written over [result] with no state and no trace. *)

Definition step_mask (self : CNNTransformerSE R) (x : tensor R)
    : result (option mask) :=
  if causal self
  then match get_lookahead_mask x with
       | Ok m => Ok (Some m)
       | Raise e => Raise e
       end
  else Ok None.

Definition step_embed (self : CNNTransformerSE R) (x : tensor R)
    : result (tensor R) :=
  match custom_emb_module self with
  | Some emb => emb x
  | None => Ok x
  end.

Definition step_encode (self : CNNTransformerSE R) (src : tensor R)
    (attention_mask : option mask) (pad : option padding_mask)
    : result (tensor R) :=
  match encoder self src attention_mask pad with
  | Ok (primary, _) => Ok primary
  | Raise e => Raise e
  end.

Definition spec_pipeline (self : CNNTransformerSE R) (x : tensor R)
    (pad : option padding_mask) : result (tensor R) :=
  match step_mask self x with
  | Raise e => Raise e
  | Ok attention_mask =>
      match step_embed self x with
      | Raise e => Raise e
      | Ok embedded =>
          match step_encode self embedded attention_mask pad with
          | Raise e => Raise e
          | Ok encoded =>
              match output_layer self encoded with
              | Raise e => Raise e
              | Ok projected => output_activation self projected
              end
          end
      end
  end.

(** The calls the five steps make, in order, each with its outcome; a step
    that raises is the last one. *)
Definition then_calls {A : Type} (r : result A)
    (rest : A → list (event R)) : list (event R) :=
  match r with
  | Ok a => rest a
  | Raise _ => []
  end.

Definition spec_calls (self : CNNTransformerSE R) (x : tensor R)
    (pad : option padding_mask) : list (event R) :=
  (if causal self
   then [Event (call_get_lookahead_mask x) (raised_by (get_lookahead_mask x))]
   else []) ++
  then_calls (step_mask self x) (λ attention_mask,
    (match custom_emb_module self with
     | Some emb => [Event (call_custom_emb_module x) (raised_by (emb x))]
     | None => []
     end) ++
    then_calls (step_embed self x) (λ embedded,
      Event (call_encoder embedded attention_mask pad)
            (raised_by (encoder self embedded attention_mask pad)) ::
      then_calls (step_encode self embedded attention_mask pad) (λ encoded,
        Event (call_output_layer encoded)
              (raised_by (output_layer self encoded)) ::
        then_calls (output_layer self encoded) (λ projected,
          [Event (call_output_activation projected)
                 (raised_by (output_activation self projected))])))).

(** The instance after the call: [attn_mask] holds the result of step (1)
    when that step returned. *)
Definition spec_self (self : CNNTransformerSE R) (x : tensor R)
    : CNNTransformerSE R :=
  match step_mask self x with
  | Ok attention_mask => assign_attn_mask attention_mask self
  | Raise _ => self
  end.

(** The keyword arguments [__init__] hands to the base class. *)
Definition init_kwargs (args : Args.t R) : interface_args R :=
  InterfaceArgs (Args.nhead args) (Args.input_size args)
    (Args.num_layers args) 0 (Args.d_ffn args) (Args.dropout args)
    (Args.activation args) false.

(** What a collaborator raises on the arguments of a call made by
    [forward]. *)
Definition outcome (self : CNNTransformerSE R) (c : call R) : option exn :=
  match c with
  | call_get_lookahead_mask x => raised_by (get_lookahead_mask x)
  | call_custom_emb_module x =>
      match custom_emb_module self with
      | Some emb => raised_by (emb x)
      | None => None
      end
  | call_encoder src src_mask pad => raised_by (encoder self src src_mask pad)
  | call_output_layer t => raised_by (output_layer self t)
  | call_output_activation t => raised_by (output_activation self t)
  | _ => None
  end.

(** The collaborators of the pipeline, in the order of its steps. *)
Definition pipeline_order (self : CNNTransformerSE R) : list collaborator :=
  (if causal self then [mask_generator] else []) ++
  (match custom_emb_module self with
   | Some _ => [embedding_module]
   | None => []
   end) ++
  [encoder_stack; linear_projection; activation_module].

Definition callees (evs : list (event R)) : list collaborator :=
  (λ ev, callee (ev_call ev)) <$> evs.

End Component.

(** ** Reference collaborators

    The code of [get_lookahead_mask], [Linear] and [TransformerInterface] is
    in other files of the repository.  The definitions of this module follow
    what the specification says about them.

    Scalars are real numbers or NaN.  Exact real arithmetic stands for the
    floating point arithmetic of the tensor framework: rounding, overflow
    and the infinities are outside the model; NaN and its propagation are in
    it.  The modules are in evaluation mode: dropout is the identity. *)

Module Reference.

(** [x.shape[1]]; a nested list with an empty batch has lost its time
    dimension, which reads as 0 here. *)
Definition time_dim {R : Type} (x : tensor R) : nat :=
  match x with
  | u :: _ => length u
  | [] => 0
  end.

(** The square mask of side [T] that forbids position [i] from attending to
    any position [j > i]. *)
Definition lookahead (T : nat) : mask :=
  (λ i, (λ j, bool_decide (i < j)) <$> seq 0 T) <$> seq 0 T.

(** Modelled from the spec: [get_lookahead_mask], "a mask-generation utility:
    get_lookahead_mask(tensor) -> square mask sized to the tensor's time
    dimension", "forbidding position i from attending to any position
    j > i". *)
Definition get_lookahead_mask {R : Type} (x : tensor R) : result mask :=
  Ok (lookahead (time_dim x)).

Definition shape_error {A : Type} : result A :=
  Raise "RuntimeError: shape mismatch"%string.

(** *** Scalars *)

Inductive scalar : Type :=
| Num (r : R)
| NaN.

Global Instance scalar_inhabited : Inhabited scalar := populate NaN.

(** An operation on a NaN is a NaN. *)
Definition sadd (a b : scalar) : scalar :=
  match a, b with
  | Num x, Num y => Num (x + y)
  | _, _ => NaN
  end.

Definition ssub (a b : scalar) : scalar :=
  match a, b with
  | Num x, Num y => Num (x - y)
  | _, _ => NaN
  end.

Definition smul (a b : scalar) : scalar :=
  match a, b with
  | Num x, Num y => Num (x * y)
  | _, _ => NaN
  end.

(** Division, used where the divisor is zero only together with the
    dividend: 0/0 is NaN. *)
Definition sdiv (a b : scalar) : scalar :=
  match a, b with
  | Num x, Num y => if Req_EM_T y 0 then NaN else Num (x / y)
  | _, _ => NaN
  end.

(** [1 / sqrt a], used on positive numbers. *)
Definition sinv_sqrt (a : scalar) : scalar :=
  match a with
  | Num x => Num (/ sqrt x)
  | NaN => NaN
  end.

Definition ssum (l : list scalar) : scalar := foldr sadd (Num 0) l.

Definition dot (w v : list scalar) : scalar := ssum (zip_with smul w v).

(** The parameters of a linear map: the entries of its matrix and its bias. *)
Record linear_params : Type := LinearParams {
  weight : nat → nat → R;
  bias : nat → R;
}.

(** [W v] and [W v + b] for the [rows] x [cols] matrix of [p]. *)
Definition linear (rows cols : nat) (p : linear_params) (v : list scalar)
    : list scalar :=
  (λ r, dot ((λ c, Num (weight p r c)) <$> seq 0 cols) v) <$> seq 0 rows.

Definition affine (rows cols : nat) (p : linear_params) (v : list scalar)
    : list scalar :=
  (λ r, sadd (dot ((λ c, Num (weight p r c)) <$> seq 0 cols) v)
             (Num (bias p r))) <$> seq 0 rows.

(** Apply [f] to every frame, and [g] to every scalar. *)
Definition framewise (f : list scalar → list scalar) (x : tensor scalar)
    : tensor scalar :=
  (λ u : list (list scalar), f <$> u) <$> x.

Definition elementwise (g : scalar → scalar) (x : tensor scalar)
    : tensor scalar :=
  framewise (fmap g) x.

Definition width_is (n : nat) (x : tensor scalar) : bool :=
  bool_decide (Forall (Forall (λ v : list scalar, length v = n)) x).

(** Addition of two tensors of one shape; no broadcasting. *)
Definition tensor_add (x y : tensor scalar) : result (tensor scalar) :=
  if bool_decide (dims x = dims y)
  then Ok (zip_with (zip_with (zip_with sadd)) x y)
  else shape_error.

(** Modelled from the spec: [Linear], "a linear-projection collaborator
    constructible with (output width, input width, bias flag) and callable as
    a function from input tensor to projected tensor"; a "projection width
    mismatch" is "surfaced as failure".  The initial parameters [init] are
    the framework's business and are a parameter here. *)
Definition Linear (init : linear_params) (n_neurons input_size : nat)
    (with_bias : bool) : result (module scalar) :=
  Ok (λ x,
    if width_is input_size x
    then Ok (framewise
               (if with_bias
                then affine n_neurons input_size init
                else linear n_neurons input_size init)
               x)
    else shape_error).

(** An activation class whose instances apply [g] to every scalar. *)
Definition activation_of (g : scalar → scalar) : module_class scalar :=
  λ _, Ok (λ x, Ok (elementwise g x)).

(** Modelled from the spec: the "rectified-linear" default of
    [output_activation] ([nn.ReLU]): [max(0, v)] on a number; a NaN stays a
    NaN. *)
Definition relu (a : scalar) : scalar :=
  match a with
  | Num r => if Rle_dec 0 r then Num r else Num 0
  | NaN => NaN
  end.
Definition ReLU : module_class scalar := activation_of relu.

(** Modelled from the spec: the "leaky rectified-linear" default of
    [activation] ([nn.LeakyReLU], negative slope 1/100). *)
Definition leaky_relu (a : scalar) : scalar :=
  match a with
  | Num r => if Rle_dec 0 r then Num r else Num (r / 100)
  | NaN => NaN
  end.
Definition LeakyReLU : module_class scalar := activation_of leaky_relu.

(** *** The encoder *)

(** The parameters of one attention head, of a normalisation, and of an
    encoder stack. *)
Record head_params : Type := HeadParams {
  query : linear_params;
  key : linear_params;
  value : linear_params;
  proj : linear_params;
}.

Record norm_params : Type := NormParams {
  gamma : nat → R;
  beta : nat → R;
}.

Record weights : Type := Weights {
  heads : nat → nat → head_params;
  ffn_in : nat → linear_params;
  ffn_out : nat → linear_params;
  norm1 : nat → norm_params;
  norm2 : nat → norm_params;
  norm_final : norm_params;
  norm_eps : R;
}.

Definition forbidden (m : option mask) (i j : nat) : bool :=
  match m with
  | Some m => default false (m !! i ≫= (.!! j))
  | None => false
  end.

Definition padded (p : option (list bool)) (j : nat) : bool :=
  match p with
  | Some p => default false (p !! j)
  | None => false
  end.

(** [exp] of a score to which a mask has added minus infinity where it
    applies: 0 for a number, NaN for a NaN. *)
Definition unnormalised (masked : bool) (s : scalar) : scalar :=
  match s with
  | Num r => if masked then Num 0 else Num (exp r)
  | NaN => NaN
  end.

(** Softmax of a row, from its unnormalised weights; a row that is masked
    everywhere is 0/0. *)
Definition normalise (e : list scalar) : list scalar :=
  (λ a, sdiv a (ssum e)) <$> e.

(** The scaled dot product of the query of frame [q] and the key of frame
    [k]. *)
Definition score (hp : head_params) (d d_h : nat) (q k : list scalar)
    : scalar :=
  smul (Num (/ sqrt (INR d_h)))
       (dot (affine d_h d (query hp) q) (affine d_h d (key hp) k)).

(** The unnormalised weights of position [i] (frame [q]) towards the
    positions of [u]. *)
Definition exp_scores (hp : head_params) (d d_h : nat) (m : option mask)
    (p : option (list bool)) (u : list (list scalar)) (i : nat)
    (q : list scalar) : list scalar :=
  imap (λ j k, unnormalised (forbidden m i j || padded p j)
                 (score hp d d_h q k)) u.

(** The weights with which position [i] (frame [q]) attends to the positions
    of [u]. *)
Definition attention_row (hp : head_params) (d d_h : nat) (m : option mask)
    (p : option (list bool)) (u : list (list scalar)) (i : nat)
    (q : list scalar) : list scalar :=
  normalise (exp_scores hp d d_h m p u i q).

(** The attention map of one sequence: time x time. *)
Definition attention_map (hp : head_params) (d d_h : nat) (m : option mask)
    (p : option (list bool)) (u : list (list scalar)) : list (list scalar) :=
  imap (attention_row hp d d_h m p u) u.

(** The weighted sum of the value frames [vs], feature by feature. *)
Definition context (d_h : nat) (a : list scalar) (vs : list (list scalar))
    : list scalar :=
  (λ f, ssum (zip_with (λ w v, smul w (v !!! f)) a vs)) <$> seq 0 d_h.

(** What one head contributes to position [i]. *)
Definition head_output (hp : head_params) (d d_h : nat) (m : option mask)
    (p : option (list bool)) (u : list (list scalar)) (i : nat)
    (q : list scalar) : list scalar :=
  affine d d_h (proj hp)
    (context d_h (attention_row hp d d_h m p u i q)
       (affine d_h d (value hp) <$> u)).

(** The sum of vectors of width [d]. *)
Definition vsum (d : nat) (vs : list (list scalar)) : list scalar :=
  foldr (zip_with sadd) (replicate d (Num 0)) vs.

(** Multi-head self-attention over one sequence, with the residual
    connection. *)
Definition attend (W : weights) (d nhead l : nat) (m : option mask)
    (p : option (list bool)) (u : list (list scalar)) : list (list scalar) :=
  imap (λ i q,
          zip_with sadd q
            (vsum d ((λ h, head_output (heads W l h) d (d / nhead) m p u i q)
                     <$> seq 0 nhead)))
       u.

(** Layer normalisation of one frame. *)
Definition mean (v : list scalar) : scalar :=
  smul (Num (/ INR (length v))) (ssum v).

Definition layer_norm (eps : R) (np : norm_params) (v : list scalar)
    : list scalar :=
  let mu := mean v in
  let var := mean ((λ a, smul (ssub a mu) (ssub a mu)) <$> v) in
  imap (λ f a,
          sadd (smul (smul (ssub a mu) (sinv_sqrt (sadd var (Num eps))))
                     (Num (gamma np f)))
               (Num (beta np f)))
       v.

Definition pad_row (p : option padding_mask) (b : nat) : option (list bool) :=
  p ≫= (.!! b).

(** The feed-forward sub-block, with the residual connection. *)
Definition feed_forward (W : weights) (d d_ffn : nat) (act : module scalar)
    (l : nat) (x : tensor scalar) : result (tensor scalar) :=
  hidden ← act (framewise (affine d_ffn d (ffn_in W l)) x);
  tensor_add x (framewise (affine d d_ffn (ffn_out W l)) hidden).

(** Self-attention over a batch: each sequence with its row of the padding
    mask. *)
Definition attend_batch (W : weights) (d nhead l : nat) (m : option mask)
    (p : option padding_mask) (x : tensor scalar) : tensor scalar :=
  imap (λ b u, attend W d nhead l m (pad_row p b) u) x.

(** One encoder layer: attention, normalisation, feed-forward,
    normalisation.  It returns the output and one attention map of the batch
    per head. *)
Definition encoder_layer (W : weights) (kw : interface_args scalar)
    (act : module scalar) (m : option mask) (p : option padding_mask)
    (l : nat) (x : tensor scalar)
    : result (tensor scalar * list (tensor scalar)) :=
  let d := ti_input_size kw in
  let nhead := ti_nhead kw in
  y ← feed_forward W d (ti_d_ffn kw) act l
         (framewise (layer_norm (norm_eps W) (norm1 W l))
            (attend_batch W d nhead l m p x));
  mret (framewise (layer_norm (norm_eps W) (norm2 W l)) y,
        (λ h, imap (λ b u, attention_map (heads W l h) d (d / nhead) m
                             (pad_row p b) u) x)
        <$> seq 0 nhead).

Fixpoint encoder_layers (W : weights) (kw : interface_args scalar)
    (act : module scalar) (m : option mask) (p : option padding_mask)
    (layers : list nat) (x : tensor scalar)
    : result (tensor scalar * diagnostics scalar) :=
  match layers with
  | [] => Ok (x, [])
  | l :: layers =>
      match encoder_layer W kw act m p l x with
      | Raise e => Raise e
      | Ok (x1, a) =>
          match encoder_layers W kw act m p layers x1 with
          | Raise e => Raise e
          | Ok (y, d) => Ok (y, a ++ d)
          end
      end
  end.

(** The shapes the encoder accepts: [src] is (B, T, input_size), a mask is
    (T, T), a padding mask is (B, T). *)
Definition encoder_accepts (d : nat) (src : tensor scalar) (m : option mask)
    (p : option padding_mask) : bool :=
  bool_decide (has_shape (length src) (time_dim src) d src)
  && match m with
     | Some m =>
         bool_decide (length <$> m = replicate (time_dim src) (time_dim src))
     | None => true
     end
  && match p with
     | Some p =>
         bool_decide (length <$> p = replicate (length src) (time_dim src))
     | None => true
     end.

(** The encoder stack with the inner activation [act]: the layers, then a
    last normalisation. *)
Definition encoder_stack (W : weights) (kw : interface_args scalar)
    (act : module scalar) : encoder_module scalar :=
  λ src m p,
    if encoder_accepts (ti_input_size kw) src m p
    then
      match encoder_layers W kw act m p (seq 0 (ti_num_encoder_layers kw))
              src with
      | Ok (y, diag) =>
          Ok (framewise (layer_norm (norm_eps W) (norm_final W)) y, diag)
      | Raise e => Raise e
      end
    else shape_error.

(** The heads split the width evenly. *)
Definition heads_fit (kw : interface_args scalar) : bool :=
  bool_decide (0 < ti_nhead kw ∧ ti_input_size kw `mod` ti_nhead kw = 0).

(** Modelled from the spec: [TransformerInterface], "a constructor accepting
    (head count, input width, encoder-layer count, decoder-layer count,
    feed-forward width, dropout, activation, positional-encoding flag) and an
    encoder sub-component callable as encoder(src, src_mask,
    src_key_padding_mask) -> (output, attention_diagnostics)": a stack of
    [num_encoder_layers] layers of "multi-head attention" with softmax
    weights, "layer normalization" and a feed-forward sub-block "of hidden
    width d_ffn" with the inner activation, followed by a last
    normalisation; the lookahead mask forbids "position i from attending to
    any position j > i" and padded positions are "excluded from attention".
    A mask adds minus infinity to the scores it covers.  The diagnostics are
    the attention maps, one per layer and head.  Dropout is the identity
    (evaluation mode); the decoder and the built-in positional encoding are
    left out; the parameters [W] are a parameter.  A head count that does
    not divide the width is refused. *)
Definition TransformerInterface (W : weights) (kw : interface_args scalar)
    : result (encoder_module scalar) :=
  if heads_fit kw
  then act ← ti_activation kw tt; mret (encoder_stack W kw act)
  else Raise "AssertionError: embed_dim must be divisible by num_heads"%string.

End Reference.

(** ** Further definitions used by the statements *)

(** [self] with another embedding module. *)
Definition with_custom_emb_module {R : Type} (emb : option (module R))
    (self : CNNTransformerSE R) : CNNTransformerSE R :=
  Self (encoder self) emb (causal self) (output_layer self)
       (output_activation self) (attn_mask self).

(** The module that returns its input. *)
Definition identity_module {R : Type} : module R := λ x, Ok x.

(** The arguments with other values of [num_layers] and [nhead]. *)
Definition with_layers_heads {R : Type} (num_layers nhead : nat)
    (args : Args.t R) : Args.t R :=
  Args.Make (Args.output_size args) (Args.input_size args)
    (Args.output_activation args) nhead num_layers (Args.d_ffn args)
    (Args.dropout args) (Args.activation args) (Args.causal args)
    (Args.custom_emb_module args).

(** Shape contracts of collaborators. *)
Definition keeps_shape {R : Type} (f : module R) : Prop :=
  ∀ x y, f x = Ok y → dims y = dims x.

Definition encoder_keeps_shape {R : Type} (enc : encoder_module R) : Prop :=
  ∀ src m p out diag, enc src m p = Ok (out, diag) → dims out = dims src.

Definition projects {R : Type} (n_in n_out : nat) (f : module R) : Prop :=
  ∀ B T x y, has_shape B T n_in x → f x = Ok y → has_shape B T n_out y.



(** Two tensors with the same first [n] frames in every batch item. *)
Definition agree {R : Type} (n : nat) (x x' : tensor R) : Prop :=
  take n <$> x = take n <$> x'.

(** Two outcomes that an observer of the first [n] frames cannot tell apart:
    both raise, or both return tensors of one shape with the same first [n]
    frames. *)
Definition alike {R : Type} (n : nat) (r r' : result (tensor R)) : Prop :=
  match r, r' with
  | Ok y, Ok y' => dims y = dims y' ∧ agree n y y'
  | Raise _, Raise _ => True
  | _, _ => False
  end.

(** A module whose first [n] output frames depend on the first [n] input
    frames only, for every [n]. *)
Definition causal_module {R : Type} (f : module R) : Prop :=
  ∀ n x x', dims x = dims x' → agree n x x' → alike n (f x) (f x').

(** An embedding module that keeps every second frame. *)
Fixpoint every_second {A : Type} (l : list A) : list A :=
  match l with
  | a :: _ :: l => a :: every_second l
  | l => l
  end.

(** The shapes of a padding mask for an input. *)
Definition pad_fits {R : Type} (x : tensor R) (pad : option padding_mask)
    : Prop :=
  match pad with
  | Some p => length <$> p = replicate (length x) (Reference.time_dim x)
  | None => True
  end.


(** *** Numbers and NaN *)

Definition is_num (a : Reference.scalar) : Prop :=
  match a with
  | Reference.Num _ => True
  | Reference.NaN => False
  end.

(** A tensor without NaN. *)
Definition all_num (x : tensor Reference.scalar) : Prop :=
  all_elements is_num x.

(** A scalar function that maps numbers to numbers. *)
Definition numeric (g : Reference.scalar → Reference.scalar) : Prop :=
  ∀ r, is_num (g (Reference.Num r)).

(** A module that maps tensors without NaN to tensors without NaN. *)
Definition num_module (f : module Reference.scalar) : Prop :=
  ∀ x y, all_num x → f x = Ok y → all_num y.

(** A non-negative number. *)
Definition nonneg (a : Reference.scalar) : Prop :=
  match a with
  | Reference.Num r => (0 <= r)%R
  | Reference.NaN => False
  end.


(** A positive number. *)
Definition positive (a : Reference.scalar) : Prop :=
  match a with
  | Reference.Num r => (0 < r)%R
  | Reference.NaN => False
  end.

(** Among [n] positions, position [i] has one it may attend to. *)
Definition live (m : option mask) (p : option (list bool)) (i n : nat)
    : Prop :=
  ∃ j, j < n ∧ Reference.forbidden m i j = false
       ∧ Reference.padded p j = false.

(** A mask that lets every position attend to the first one. *)
Definition open_mask (m : option mask) : Prop :=
  ∀ i, Reference.forbidden m i 0 = false.

(** A padding mask that does not pad the first position of any sequence:
    under a lookahead mask no position is then left with nothing to attend
    to. *)
Definition pad_keeps_first (pad : option padding_mask) : Prop :=
  ∀ b, Reference.padded (Reference.pad_row pad b) 0 = false.

(** An encoder that, given a lookahead mask, computes its first [n] output
    frames from the first [n] input frames, on inputs without NaN. *)
Definition causal_encoder (enc : encoder_module Reference.scalar) : Prop :=
  ∀ T n src src' pad,
    all_num src → all_num src' → pad_keeps_first pad →
    dims src = dims src' → agree n src src' →
    alike n (fst <$> enc src (Some (Reference.lookahead T)) pad)
            (fst <$> enc src' (Some (Reference.lookahead T)) pad).



(** An embedding module that looks one frame ahead: the two-tap convolution
    [y_t = x_t + x_(t+1)] over time, zero beyond the end. *)
Definition lookahead_conv : module Reference.scalar :=
  λ x, Ok ((λ u : list (list Reference.scalar),
              zip_with (zip_with Reference.sadd) u
                (drop 1 u ++ [replicate (length (default [] (head u)))
                                (Reference.Num 0)]))
           <$> x).

Definition subsample : module Reference.scalar :=
  λ x, Ok (every_second <$> x).

(** *** One layer, frame by frame

    After the attention, a layer with an elementwise activation [g] works on
    each frame by itself: the feed-forward sub-block with its residual
    connection, the three normalisations of a stack of one layer, and the
    output projection and activation [h] of the component. *)

Definition ffn_frame (W : Reference.weights) (d d_ffn : nat)
    (g : Reference.scalar → Reference.scalar) (l : nat)
    (v : list Reference.scalar) : list Reference.scalar :=
  zip_with Reference.sadd v
    (Reference.affine d d_ffn (Reference.ffn_out W l)
       (g <$> Reference.affine d_ffn d (Reference.ffn_in W l) v)).

Definition encoder_frame (W : Reference.weights) (d d_ffn : nat)
    (g : Reference.scalar → Reference.scalar) (v : list Reference.scalar)
    : list Reference.scalar :=
  Reference.layer_norm (Reference.norm_eps W) (Reference.norm_final W)
    (Reference.layer_norm (Reference.norm_eps W) (Reference.norm2 W 0)
       (ffn_frame W d d_ffn g 0
          (Reference.layer_norm (Reference.norm_eps W) (Reference.norm1 W 0)
             v))).

Definition output_frame (W : Reference.weights)
    (init : Reference.linear_params) (d d_ffn n_out : nat)
    (g h : Reference.scalar → Reference.scalar) (v : list Reference.scalar)
    : list Reference.scalar :=
  h <$> Reference.linear n_out d init (encoder_frame W d d_ffn g v).

(** What a normalisation with shift 0 makes of a frame of width 1. *)
Definition settle (a : Reference.scalar) : Reference.scalar :=
  match a with
  | Reference.Num _ => Reference.Num 0
  | Reference.NaN => Reference.NaN
  end.

(** ** A small instance

    One layer, one head, width 1, in the state the framework initialises the
    normalisations to (scale 1, shift 0); the matrices are the identity. *)

Module Example.
Import Reference.

Definition unit_linear : linear_params :=
  LinearParams (λ r c, if (r =? c)%nat then 1%R else 0%R) (λ _, 0%R).

Definition initial_norm : norm_params := NormParams (λ _, 1%R) (λ _, 0%R).

Definition W : weights :=
  Weights (λ _ _, HeadParams unit_linear unit_linear unit_linear unit_linear)
    (λ _, unit_linear) (λ _, unit_linear) (λ _, initial_norm)
    (λ _, initial_norm) initial_norm (/ 1000000)%R.

Definition args (causal : bool) (emb : option (module scalar))
    : Args.t scalar :=
  Args.Make 1 1 ReLU 1 1 1 (1 # 10)%Q LeakyReLU causal emb.

(** [CNNTransformerSE(1, 1, nhead=1, num_layers=1, d_ffn=1, causal=...,
    custom_emb_module=...)] *)
Definition net (causal : bool) (emb : option (module scalar))
    : result (CNNTransformerSE scalar) :=
  (__init__ (TransformerInterface W) (Linear unit_linear)
     (args causal emb) (tt, [])).1.

(** Two inputs of shape (1, 3, 1) that differ in the last frame only, the
    second holding a NaN there. *)
Definition x : tensor scalar := [[[Num 1]; [Num 2]; [Num 5]]].

(** An input of shape (1, 4, 1). *)
Definition x4 : tensor scalar := [[[Num 1]; [Num 2]; [Num 5]; [Num 3]]].


End Example.

(** ** A second instance, of width 2

    One layer, one head.  The query and key maps are zero, so that every
    position attends to the positions it may attend to with equal weights;
    the value and output maps of the head are the identity; the
    feed-forward maps are zero, so that the sub-block adds nothing. *)

Module Wide.
Import Reference.

Definition zero_linear : linear_params :=
  LinearParams (λ _ _, 0%R) (λ _, 0%R).

Definition W : weights :=
  Weights
    (λ _ _, HeadParams zero_linear zero_linear Example.unit_linear
              Example.unit_linear)
    (λ _, zero_linear) (λ _, zero_linear) (λ _, Example.initial_norm)
    (λ _, Example.initial_norm) Example.initial_norm (/ 1000000)%R.

Definition args (causal : bool) (emb : option (module scalar))
    : Args.t scalar :=
  Args.Make 2 2 ReLU 1 1 1 (1 # 10)%Q LeakyReLU causal emb.

(** [CNNTransformerSE(2, 2, nhead=1, num_layers=1, d_ffn=1, causal=...,
    custom_emb_module=...)] *)
Definition net (causal : bool) (emb : option (module scalar))
    : result (CNNTransformerSE scalar) :=
  (__init__ (TransformerInterface W) (Linear Example.unit_linear)
     (args causal emb) (tt, [])).1.

(** Two inputs of shape (1, 2, 2) that differ in the last frame only. *)
Definition x : tensor scalar := [[[Num 1; Num 0]; [Num 0; Num 0]]].
Definition x' : tensor scalar := [[[Num 1; Num 0]; [Num 0; Num 6]]].

End Wide.

(** [self] with another encoder. *)
Definition with_encoder {R : Type} (enc : encoder_module R)
    (self : CNNTransformerSE R) : CNNTransformerSE R :=
  Self enc (custom_emb_module self) (causal self) (output_layer self)
       (output_activation self) (attn_mask self).

(** [self] with any state of the [attn_mask] attribute, also unassigned. *)
Definition with_attn_mask {R : Type} (a : attribute (option mask))
    (self : CNNTransformerSE R) : CNNTransformerSE R :=
  Self (encoder self) (custom_emb_module self) (causal self)
       (output_layer self) (output_activation self) a.

(** An encoder that returns the output of [enc] and no attention maps. *)
Definition without_diagnostics {R : Type} (enc : encoder_module R)
    : encoder_module R :=
  λ src m p,
    match enc src m p with
    | Ok (out, _) => Ok (out, [])
    | Raise e => Raise e
    end.

(** A class that cannot be instantiated. *)
Definition broken_class {R : Type} : module_class R :=
  λ _, Raise "TypeError: 'NoneType' object is not callable"%string.

(** The three constructors [__init__] calls, in its order. *)
Definition init_order : list collaborator :=
  [TransformerInterface_class; Linear_class; output_activation_class].


(** ** The wiring, for any collaborators *)

Section Wiring.
Context {R : Type}.
Variable TransformerInterface : interface_args R → result (encoder_module R).
Variable Linear : nat → nat → bool → result (module R).
Variable get_lookahead_mask : tensor R → result mask.

(** [forward], run from any instance and any trace, is the pipeline. *)
Lemma forward_run (self : CNNTransformerSE R) (tr : list (event R))
    (x : tensor R) (pad : option padding_mask) :
  forward get_lookahead_mask x pad (self, tr) =
  (spec_pipeline get_lookahead_mask self x pad,
   (spec_self get_lookahead_mask self x,
    tr ++ spec_calls get_lookahead_mask self x pad)).
Proof.
  unfold forward, spec_pipeline, spec_self, spec_calls, step_mask,
    step_embed, step_encode, then_calls.
  unfold mbind, M_bind, mret, M_ret, getattr, getattr_attn_mask,
    setattr_attn_mask, invoke; simpl.
  destruct (causal self) eqn:Hc; simpl.
  - destruct (get_lookahead_mask x) as [m|e]; simpl; [|done].
    destruct (custom_emb_module self) as [emb|]; simpl.
    + destruct (emb x) as [x1|e]; simpl; [|by rewrite <- ?app_assoc].
      destruct (encoder self x1 (Some m) pad) as [[o d]|e]; simpl;
        [|by rewrite <- ?app_assoc].
      destruct (output_layer self o) as [p|e]; simpl;
        [|by rewrite <- ?app_assoc].
      destruct (output_activation self p); by rewrite <- ?app_assoc.
    + destruct (encoder self x (Some m) pad) as [[o d]|e]; simpl;
        [|by rewrite <- ?app_assoc].
      destruct (output_layer self o) as [p|e]; simpl;
        [|by rewrite <- ?app_assoc].
      destruct (output_activation self p); by rewrite <- ?app_assoc.
  - destruct (custom_emb_module self) as [emb|]; simpl.
    + destruct (emb x) as [x1|e]; simpl; [|done].
      destruct (encoder self x1 None pad) as [[o d]|e]; simpl;
        [|by rewrite <- ?app_assoc].
      destruct (output_layer self o) as [p|e]; simpl;
        [|by rewrite <- ?app_assoc].
      destruct (output_activation self p); by rewrite <- ?app_assoc.
    + destruct (encoder self x None pad) as [[o d]|e]; simpl;
        [|by rewrite <- ?app_assoc].
      destruct (output_layer self o) as [p|e]; simpl;
        [|by rewrite <- ?app_assoc].
      destruct (output_activation self p); by rewrite <- ?app_assoc.
Qed.

(** [__init__] run from any trace, when the three constructors it calls
    return. *)
Lemma init_run (args : Args.t R) (tr : list (event R))
    (enc : encoder_module R) (lin act : module R) :
  TransformerInterface (init_kwargs args) = Ok enc →
  Linear (Args.output_size args) (Args.input_size args) false = Ok lin →
  Args.output_activation args tt = Ok act →
  __init__ TransformerInterface Linear args (tt, tr) =
  (Ok (Self enc (Args.custom_emb_module args) (Args.causal args) lin act
         Unset),
   (tt, tr ++ [Event (call_TransformerInterface (init_kwargs args)) None;
               Event (call_Linear (Args.output_size args)
                        (Args.input_size args) false) None;
               Event call_output_activation_class None])).
Proof.
  unfold init_kwargs. intros Henc Hlin Hact.
  unfold __init__, mbind, M_bind, mret, M_ret, invoke; simpl.
  rewrite Henc, Hlin, Hact; simpl. by rewrite <- !app_assoc.
Qed.

(** An instance comes out of [__init__] only if the three constructors
    returned, and then it is the one of [init_run]. *)
Lemma init_inv (args : Args.t R) (w w' : unit * list (event R))
    (self : CNNTransformerSE R) :
  __init__ TransformerInterface Linear args w = (Ok self, w') →
  ∃ enc lin act,
    TransformerInterface (init_kwargs args) = Ok enc ∧
    Linear (Args.output_size args) (Args.input_size args) false = Ok lin ∧
    Args.output_activation args tt = Ok act ∧
    self = Self enc (Args.custom_emb_module args) (Args.causal args) lin act
             Unset.
Proof.
  unfold init_kwargs, __init__, mbind, M_bind, mret, M_ret, invoke; simpl.
  destruct (TransformerInterface _) as [enc|e]; simpl; [|done].
  destruct (Linear _ _ _) as [lin|e]; simpl; [|done].
  destruct (Args.output_activation args tt) as [act|e]; simpl; [|done].
  intros [= <- _]. by exists enc, lin, act.
Qed.

(** Case analysis on the outcome of every step of the pipeline. *)
Ltac pipeline_cases :=
  unfold spec_pipeline, spec_calls, spec_self, step_mask, step_embed,
    step_encode, then_calls, pipeline_order, callees, outcome; simpl;
  repeat match goal with
  | |- context [if causal ?s then _ else _] =>
      destruct (causal s) eqn:?; simpl
  | |- context [match custom_emb_module ?s with _ => _ end] =>
      destruct (custom_emb_module s) eqn:?; simpl
  | |- context [get_lookahead_mask ?x] =>
      destruct (get_lookahead_mask x) as [?|?] eqn:?; simpl
  | |- context [encoder ?s ?x ?m ?p] =>
      destruct (encoder s x m p) as [[? ?]|?] eqn:?; simpl
  | |- context [output_layer ?s ?x] =>
      destruct (output_layer s x) as [?|?] eqn:?; simpl
  | |- context [output_activation ?s ?x] =>
      destruct (output_activation s x) as [?|?] eqn:?; simpl
  | |- context [match ?emb ?x with Ok _ => _ | Raise _ => _ end] =>
      is_var emb; destruct (emb x) as [?|?] eqn:?; simpl
  end.

(** The calls of a run go to the collaborators in the order of the steps,
    and to all of them when the run returns. *)
Lemma spec_calls_order (self : CNNTransformerSE R) (x : tensor R)
    (pad : option padding_mask) :
  callees (spec_calls get_lookahead_mask self x pad)
    `prefix_of` pipeline_order self ∧
  (∀ y, spec_pipeline get_lookahead_mask self x pad = Ok y →
        callees (spec_calls get_lookahead_mask self x pad)
        = pipeline_order self).
Proof.
  pipeline_cases; (split; [|try done]);
    first [ by eexists | by eexists [_] | by eexists [_; _]
          | by eexists [_; _; _] | by eexists [_; _; _; _] ].
Qed.

(** The new entries of the trace record what the collaborators did, each
    collaborator is called at most once, and a call that raised is the last
    one. *)
Lemma spec_calls_outcomes (self : CNNTransformerSE R) (x : tensor R)
    (pad : option padding_mask) :
  Forall (λ ev, ev_raised ev = outcome get_lookahead_mask self (ev_call ev))
    (spec_calls get_lookahead_mask self x pad).
Proof.
  pipeline_cases; repeat constructor; simpl;
    repeat match goal with H : _ = _ |- _ => rewrite H end; done.
Qed.

Lemma spec_calls_NoDup (self : CNNTransformerSE R) (x : tensor R)
    (pad : option padding_mask) :
  NoDup (callees (spec_calls get_lookahead_mask self x pad)).
Proof.
  pipeline_cases; by apply (bool_decide_unpack _).
Qed.

Lemma spec_calls_raise (self : CNNTransformerSE R) (x : tensor R)
    (pad : option padding_mask) (e : exn) :
  spec_pipeline get_lookahead_mask self x pad = Raise e ↔
  ∃ evs0 ev,
    spec_calls get_lookahead_mask self x pad = evs0 ++ [ev] ∧
    ev_raised ev = Some e ∧
    Forall (λ ev, ev_raised ev = None) evs0.
Proof.
  pipeline_cases; split;
    try (intros (evs0 & ev & Heq & Hev & _);
         apply (f_equal last) in Heq; rewrite last_snoc in Heq;
         simpl in Heq; by simplify_eq/=);
    try discriminate;
    intros [= <-];
    first [ eexists [], _; (split; [reflexivity|])
          | eexists [_], _; (split; [reflexivity|])
          | eexists [_; _], _; (split; [reflexivity|])
          | eexists [_; _; _], _; (split; [reflexivity|])
          | eexists [_; _; _; _], _; (split; [reflexivity|]) ];
    (split; [done|]); by repeat constructor.
Qed.

(** C3: for every input, [forward] computes exactly the pipeline of the
    specification, in its order: (1) the lookahead mask if causal, else no
    mask; (2) the embedding module if one is configured; (3) the encoder on
    the (possibly transformed) input with the attention mask and the padding
    mask, of whose result only the primary output is kept; (4) the linear
    projection; (5) the output activation, whose result is returned.  The
    result, the instance left behind and the calls made are those of
    [spec_pipeline], [spec_self] and [spec_calls]; the calls go to the
    collaborators in the order of the steps, and to every one of them when
    the call returns. *)
Theorem forward_computes_pipeline (self : CNNTransformerSE R)
    (tr : list (event R)) (x : tensor R) (pad : option padding_mask) :
  forward get_lookahead_mask x pad (self, tr) =
    (spec_pipeline get_lookahead_mask self x pad,
     (spec_self get_lookahead_mask self x,
      tr ++ spec_calls get_lookahead_mask self x pad)) ∧
  callees (spec_calls get_lookahead_mask self x pad)
    `prefix_of` pipeline_order self ∧
  (∀ y, (forward get_lookahead_mask x pad (self, tr)).1 = Ok y →
        callees (spec_calls get_lookahead_mask self x pad)
        = pipeline_order self).
Proof.
  split; [apply forward_run|].
  split; [apply spec_calls_order|].
  intros y. rewrite forward_run; simpl. apply spec_calls_order.
Qed.

(** C4: with [custom_emb_module=None], [forward] behaves as the component
    whose embedding module is the identity: same result, same [attn_mask],
    and the same calls once the call of the identity module is left out; the
    encoder, when reached, is called on [x] itself. *)
Theorem forward_without_embedding_is_identity (self : CNNTransformerSE R)
    (tr : list (event R)) (x : tensor R) (pad : option padding_mask) :
  custom_emb_module self = None →
  ∃ evs evs_id,
    forward get_lookahead_mask x pad (self, tr)
      = (spec_pipeline get_lookahead_mask self x pad,
         (spec_self get_lookahead_mask self x, tr ++ evs)) ∧
    forward get_lookahead_mask x pad
        (with_custom_emb_module (Some identity_module) self, tr)
      = (spec_pipeline get_lookahead_mask self x pad,
         (with_custom_emb_module (Some identity_module)
            (spec_self get_lookahead_mask self x),
          tr ++ evs_id)) ∧
    filter (λ ev, callee (ev_call ev) ≠ embedding_module) evs_id = evs ∧
    (∀ ev src m p,
       ev ∈ evs → ev_call ev = call_encoder src m p → src = x).
Proof.
  intros Hnone.
  exists (spec_calls get_lookahead_mask self x pad),
    (spec_calls get_lookahead_mask
       (with_custom_emb_module (Some identity_module) self) x pad).
  rewrite !forward_run.
  unfold with_custom_emb_module, identity_module.
  pipeline_cases; simplify_eq/=;
    (split; [done|]);
    (split; [unfold assign_attn_mask; simpl; congruence|]);
    (split; [done|]);
    intros ev src m p Hin Hcall;
    repeat (apply elem_of_cons in Hin as [->|Hin]; [by simplify_eq/=|]);
    by apply elem_of_nil in Hin.
Qed.

(** C7: for every configuration the three constructors accept, [__init__]
    calls the transformer interface with the given head count, input width,
    [num_layers] encoder layers, 0 decoder layers, the feed-forward width,
    dropout and inner activation and with positional encoding disabled, then
    constructs the linear projection from [input_size] to [output_size]
    without bias, then instantiates the output activation; the instance holds
    these three, the causal flag and the embedding module as given, and no
    [attn_mask] yet. *)
Theorem init_delegates (args : Args.t R) (tr : list (event R))
    (enc : encoder_module R) (lin act : module R) :
  TransformerInterface (init_kwargs args) = Ok enc →
  Linear (Args.output_size args) (Args.input_size args) false = Ok lin →
  Args.output_activation args tt = Ok act →
  ∃ kwargs self,
    __init__ TransformerInterface Linear args (tt, tr) =
      (Ok self,
       (tt, tr ++ [Event (call_TransformerInterface kwargs) None;
                   Event (call_Linear (Args.output_size args)
                            (Args.input_size args) false) None;
                   Event call_output_activation_class None])) ∧
    ti_nhead kwargs = Args.nhead args ∧
    ti_input_size kwargs = Args.input_size args ∧
    ti_num_encoder_layers kwargs = Args.num_layers args ∧
    ti_num_decoder_layers kwargs = 0 ∧
    ti_d_ffn kwargs = Args.d_ffn args ∧
    ti_dropout kwargs = Args.dropout args ∧
    ti_activation kwargs = Args.activation args ∧
    ti_positional_encoding kwargs = false ∧
    TransformerInterface kwargs = Ok (encoder self) ∧
    output_layer self = lin ∧
    output_activation self = act ∧
    causal self = Args.causal args ∧
    custom_emb_module self = Args.custom_emb_module args ∧
    attn_mask self = Unset.
Proof.
  intros Henc Hlin Hact.
  eexists (init_kwargs args), _.
  split; [by apply init_run|]. by repeat split.
Qed.

(** C8: a call of [forward] assigns [self.attn_mask] and nothing else.  The
    encoder (with the model parameters), the embedding module, the causal
    flag, the projection layer and the output activation are the ones of
    before the call.  [attn_mask] becomes the lookahead mask of the current
    input when the instance is causal (whatever happens later in the call;
    only when the mask generator itself raises is the attribute left as it
    was) and [None] otherwise; a second call overwrites what the first one
    left, from its own input alone. *)
Theorem forward_assigns_only_attn_mask (self : CNNTransformerSE R)
    (tr : list (event R)) (x : tensor R) (pad : option padding_mask) :
  let self' := (forward get_lookahead_mask x pad (self, tr)).2.1 in
  encoder self' = encoder self ∧
  custom_emb_module self' = custom_emb_module self ∧
  causal self' = causal self ∧
  output_layer self' = output_layer self ∧
  output_activation self' = output_activation self ∧
  attn_mask self' =
    (if causal self
     then match get_lookahead_mask x with
          | Ok m => Bound (Some m)
          | Raise _ => attn_mask self
          end
     else Bound None) ∧
  ∀ x2 pad2,
    attn_mask
      (forward get_lookahead_mask x2 pad2
         (forward get_lookahead_mask x pad (self, tr)).2).2.1 =
    (if causal self
     then match get_lookahead_mask x2 with
          | Ok m => Bound (Some m)
          | Raise _ => attn_mask self'
          end
     else Bound None).
Proof.
  assert (Hframe : ∀ s y,
    encoder (spec_self get_lookahead_mask s y) = encoder s ∧
    custom_emb_module (spec_self get_lookahead_mask s y)
      = custom_emb_module s ∧
    causal (spec_self get_lookahead_mask s y) = causal s ∧
    output_layer (spec_self get_lookahead_mask s y) = output_layer s ∧
    output_activation (spec_self get_lookahead_mask s y)
      = output_activation s ∧
    attn_mask (spec_self get_lookahead_mask s y) =
      (if causal s
       then match get_lookahead_mask y with
            | Ok m => Bound (Some m)
            | Raise _ => attn_mask s
            end
       else Bound None)).
  { intros s y. unfold spec_self, step_mask.
    destruct (causal s) eqn:Hs; [destruct (get_lookahead_mask y)|];
      simpl; by rewrite ?Hs. }
  simpl. rewrite forward_run; simpl.
  destruct (Hframe self x) as (? & ? & Hc & ? & ? & ?).
  repeat (split; [done|]).
  intros x2 pad2. rewrite forward_run; simpl.
  destruct (Hframe (spec_self get_lookahead_mask self x) x2)
    as (_ & _ & _ & _ & _ & ->).
  by rewrite Hc.
Qed.

(** C9: [forward] validates nothing itself.  It raises exactly when one of
    the collaborators it calls (mask generator, embedding module, encoder,
    linear projection, activation) raises, and it raises that very exception;
    the call that raised is the last call made (nothing is recovered, nothing
    follows) and no collaborator is called twice (no retry). *)
Theorem forward_raises_iff_collaborator_raises (self : CNNTransformerSE R)
    (tr : list (event R)) (x : tensor R) (pad : option padding_mask) :
  ∃ evs,
    (forward get_lookahead_mask x pad (self, tr)).2.2 = tr ++ evs ∧
    Forall (λ ev, ev_raised ev = outcome get_lookahead_mask self (ev_call ev))
      evs ∧
    NoDup (callees evs) ∧
    (∀ e, (forward get_lookahead_mask x pad (self, tr)).1 = Raise e ↔
          ∃ ev, ev ∈ evs ∧ ev_raised ev = Some e) ∧
    (∀ e, (forward get_lookahead_mask x pad (self, tr)).1 = Raise e →
          ∃ evs0 ev,
            evs = evs0 ++ [ev] ∧ ev_raised ev = Some e ∧
            Forall (λ ev, ev_raised ev = None) evs0).
Proof.
  exists (spec_calls get_lookahead_mask self x pad).
  rewrite forward_run; simpl.
  split; [done|]. split; [apply spec_calls_outcomes|].
  split; [apply spec_calls_NoDup|].
  split; [|intros e; apply spec_calls_raise].
  intros e. rewrite spec_calls_raise. split.
  - intros (evs0 & ev & -> & Hev & _). exists ev. split; [|done].
    apply elem_of_app. right. by apply list_elem_of_singleton.
  - intros (ev & Hin & Hev).
    destruct (spec_pipeline get_lookahead_mask self x pad) as [y|e'] eqn:Hp.
    + exfalso. revert Hp Hin. clear -Hev.
      pipeline_cases; try discriminate; intros _ Hin;
        repeat (apply elem_of_cons in Hin as [->|Hin]; [by simplify_eq/=|]);
        by apply elem_of_nil in Hin.
    + apply spec_calls_raise in Hp as (evs0 & ev' & Heq & Hev' & Hall).
      exists evs0, ev'. split; [done|]. split; [|done].
      rewrite Heq in Hin. apply elem_of_app in Hin as [Hin|Hin].
      * rewrite Forall_forall in Hall. apply Hall in Hin. congruence.
      * apply list_elem_of_singleton in Hin. by subst.
Qed.

(** The shape of what [forward] returns, from the shape contracts of the
    three modules of the instance. *)
Lemma forward_shape (self : CNNTransformerSE R) (n_in n_out B T : nat)
    (x y : tensor R) (pad : option padding_mask)
    (w w' : CNNTransformerSE R * list (event R)) :
  encoder_keeps_shape (encoder self) →
  projects n_in n_out (output_layer self) →
  keeps_shape (output_activation self) →
  custom_emb_module self = None →
  w.1 = self →
  has_shape B T n_in x →
  forward get_lookahead_mask x pad w = (Ok y, w') →
  has_shape B T n_out y.
Proof.
  intros Henc Hlin Hact Hnone <- Hx. destruct w as [s tr]; simpl in *.
  rewrite forward_run. intros [= Hrun _]. revert Hrun.
  unfold spec_pipeline, step_embed, step_encode. rewrite Hnone.
  destruct (step_mask get_lookahead_mask s x) as [m|]; [|done].
  destruct (encoder s x m pad) as [[o d]|] eqn:Ho; [|done].
  destruct (output_layer s o) as [q|] eqn:Hq; [|done].
  intros Hy. apply Hact in Hy. unfold has_shape. rewrite Hy.
  apply (Hlin B T o q); [|done].
  unfold has_shape. by rewrite (Henc _ _ _ _ _ Ho).
Qed.

(** C1: with no embedding module, an input of shape (B, T, input_size) that
    [forward] accepts gives an output of shape (B, T, output_size): the
    encoder the interface builds keeps the shape of its input, the linear
    layer built for (output_size, input_size) maps the last dimension, and
    the output activation keeps the shape.  In particular (8, 120, 256) gives
    (8, 120, 257) for [input_size=256], [output_size=257]; and the shape is
    the same whatever [num_layers] and [nhead] are. *)
Theorem forward_output_shape (args : Args.t R) :
  (∀ kw enc, TransformerInterface kw = Ok enc → encoder_keeps_shape enc) →
  (∀ n_out n_in lin,
     Linear n_out n_in false = Ok lin → projects n_in n_out lin) →
  (∀ act, Args.output_activation args tt = Ok act → keeps_shape act) →
  Args.custom_emb_module args = None →
  (∀ w0 w0' self B T x pad tr y w',
     __init__ TransformerInterface Linear args w0 = (Ok self, w0') →
     has_shape B T (Args.input_size args) x →
     forward get_lookahead_mask x pad (self, tr) = (Ok y, w') →
     has_shape B T (Args.output_size args) y) ∧
  (Args.input_size args = 256 → Args.output_size args = 257 →
   ∀ w0 w0' self x pad tr y w',
     __init__ TransformerInterface Linear args w0 = (Ok self, w0') →
     has_shape 8 120 256 x →
     forward get_lookahead_mask x pad (self, tr) = (Ok y, w') →
     has_shape 8 120 257 y) ∧
  (∀ num_layers nhead w0 w0' self B T x pad tr y w',
     __init__ TransformerInterface Linear
       (with_layers_heads num_layers nhead args) w0 = (Ok self, w0') →
     has_shape B T (Args.input_size args) x →
     forward get_lookahead_mask x pad (self, tr) = (Ok y, w') →
     has_shape B T (Args.output_size args) y).
Proof.
  intros HTI HLin Hact Hnone.
  assert (Hgen : ∀ args' w0 w0' self B T x pad tr y w',
    Args.output_activation args' = Args.output_activation args →
    Args.custom_emb_module args' = Args.custom_emb_module args →
    __init__ TransformerInterface Linear args' w0 = (Ok self, w0') →
    has_shape B T (Args.input_size args') x →
    forward get_lookahead_mask x pad (self, tr) = (Ok y, w') →
    has_shape B T (Args.output_size args') y).
  { intros args' w0 w0' self B T x pad tr y w' Ha He Hinit Hx Hrun.
    apply init_inv in Hinit as (enc & lin & act & Henc & Hlin & Hact' & ->).
    refine (forward_shape
              (Self enc (Args.custom_emb_module args') (Args.causal args')
                 lin act Unset)
              _ _ _ _ _ _ _ (_, tr) _ (HTI _ _ Henc)
              (HLin _ _ _ Hlin) _ _ eq_refl Hx Hrun); simpl.
    - apply Hact. by rewrite <- Ha.
    - by rewrite He. }
  split; [|split].
  - intros. by eapply (Hgen args).
  - intros Hin Hout w0 w0' self x pad tr y w' Hinit Hx Hrun.
    rewrite <- Hout. eapply (Hgen args); [done|done|exact Hinit| |exact Hrun].
    by rewrite Hin.
  - intros num_layers nhead w0 w0' self B T x pad tr y w' Hinit Hx Hrun.
    by eapply (Hgen (with_layers_heads num_layers nhead args)).
Qed.


End Wiring.

(** ** The reference collaborators: shapes *)

Section ReferenceShapes.
Import Reference.

Lemma has_shape_Forall {R : Type} (B T F : nat) (x : tensor R) :
  has_shape B T F x ↔
  length x = B ∧
  Forall (λ u, length u = T ∧ Forall (λ v : list R, length v = F) u) x.
Proof.
  unfold has_shape, dims. split.
  - intros Hx. symmetry in Hx. apply replicate_as_Forall in Hx as [Hlen Hall].
    rewrite length_fmap in Hlen. split; [done|].
    rewrite Forall_fmap in Hall. eapply Forall_impl; [exact Hall|].
    intros u Hu; simpl in Hu. apply replicate_as_Forall in Hu as [Hl Hv].
    rewrite length_fmap in Hl. split; [done|].
    rewrite Forall_fmap in Hv. eapply Forall_impl; [exact Hv|]. by intros v ->.
  - intros [Hlen Hall]. symmetry. apply replicate_as_Forall.
    rewrite length_fmap. split; [done|].
    rewrite Forall_fmap. eapply Forall_impl; [exact Hall|].
    intros u [Hl Hv]; simpl. apply replicate_as_Forall.
    rewrite length_fmap. split; [done|].
    rewrite Forall_fmap. eapply Forall_impl; [exact Hv|]. by intros v <-.
Qed.

Lemma framewise_shape (f : list scalar → list scalar) (F' B T F : nat)
    (x : tensor scalar) :
  (∀ v, length v = F → length (f v) = F') →
  has_shape B T F x → has_shape B T F' (framewise f x).
Proof.
  intros Hf. rewrite !has_shape_Forall. unfold framewise.
  intros [Hlen Hall]. rewrite length_fmap. split; [done|].
  rewrite Forall_fmap. eapply Forall_impl; [exact Hall|].
  intros u [Hl Hv]; simpl. rewrite length_fmap. split; [done|].
  rewrite Forall_fmap. eapply Forall_impl; [exact Hv|]. intros v; apply Hf.
Qed.

Lemma elementwise_dims (g : scalar → scalar) (x : tensor scalar) :
  dims (elementwise g x) = dims x.
Proof.
  unfold elementwise, framewise, dims.
  rewrite <- list_fmap_compose. apply list_fmap_ext. intros _ u _; simpl.
  rewrite <- list_fmap_compose. apply list_fmap_ext. intros _ v _; simpl.
  apply length_fmap.
Qed.

Lemma affine_length (rows cols : nat) (p : linear_params) (v : list scalar) :
  length (affine rows cols p v) = rows.
Proof. unfold affine. by rewrite length_fmap, length_seq. Qed.

Lemma linear_length (rows cols : nat) (p : linear_params) (v : list scalar) :
  length (linear rows cols p v) = rows.
Proof. unfold linear. by rewrite length_fmap, length_seq. Qed.

Lemma layer_norm_length (eps : R) (np : norm_params) (v : list scalar) :
  length (layer_norm eps np v) = length v.
Proof. unfold layer_norm. by rewrite length_imap. Qed.

Lemma tensor_add_dims (x y z : tensor scalar) :
  tensor_add x y = Ok z → dims z = dims x.
Proof.
  unfold tensor_add. case_bool_decide as Hd; [|done]. intros [= <-].
  revert y Hd. unfold dims.
  induction x as [|u x IH]; intros [|u' y] Hd; simplify_eq/=; [done|].
  match goal with H : length <$> u = length <$> u' |- _ => rename H into Hu end.
  f_equal; [|by apply IH].
  clear IH. revert u' Hu.
  induction u as [|v u IH]; intros [|v' u'] Hu; simplify_eq/=; [done|].
  f_equal; [|by apply IH].
  rewrite length_zip_with. lia.
Qed.

Lemma tensor_add_total (x y : tensor scalar) :
  dims x = dims y → ∃ z, tensor_add x y = Ok z.
Proof.
  intros Hd. unfold tensor_add. rewrite bool_decide_eq_true_2 by done.
  by eexists.
Qed.

Lemma layer_norm_shape (eps : R) (np : norm_params) (B T F : nat)
    (x : tensor scalar) :
  has_shape B T F x → has_shape B T F (framewise (layer_norm eps np) x).
Proof.
  apply framewise_shape. intros v <-. apply layer_norm_length.
Qed.

Lemma vsum_length (d : nat) (vs : list (list scalar)) :
  Forall (λ v, length v = d) vs → length (vsum d vs) = d.
Proof.
  unfold vsum. induction 1 as [|v vs Hv _ IH]; simpl.
  - apply length_replicate.
  - rewrite length_zip_with, IH. lia.
Qed.

Lemma heads_length (W : weights) (d nhead l : nat) (m : option mask)
    (p : option (list bool)) (u : list (list scalar)) (i : nat)
    (q : list scalar) :
  length (vsum d ((λ h, head_output (heads W l h) d (d / nhead) m p u i q)
                  <$> seq 0 nhead)) = d.
Proof.
  apply vsum_length. rewrite Forall_fmap. apply Forall_true. intros h.
  apply affine_length.
Qed.

Lemma attend_length (W : weights) (d nhead l : nat) (m : option mask)
    (p : option (list bool)) (u : list (list scalar)) :
  length (attend W d nhead l m p u) = length u.
Proof. unfold attend. apply length_imap. Qed.


Lemma attend_shape (W : weights) (d nhead l : nat) (m : option mask)
    (p : option padding_mask) (B T : nat) (x : tensor scalar) :
  has_shape B T d x → has_shape B T d (attend_batch W d nhead l m p x).
Proof.
  rewrite !has_shape_Forall. intros [Hlen Hall]. unfold attend_batch.
  rewrite length_imap. split; [done|].
  apply Forall_lookup. intros b u'. rewrite list_lookup_imap.
  destruct (x !! b) as [u|] eqn:Hu; [|done]. simpl. intros [= <-].
  rewrite Forall_lookup in Hall. destruct (Hall b u Hu) as [HT Hw].
  rewrite attend_length. split; [done|].
  apply Forall_lookup. intros i q'. unfold attend. rewrite list_lookup_imap.
  destruct (u !! i) as [q|] eqn:Hq; [|done]. simpl. intros [= <-].
  rewrite Forall_lookup in Hw. specialize (Hw i q Hq).
  rewrite length_zip_with, heads_length. lia.
Qed.

Lemma has_shape_dims {R : Type} (B T F : nat) (x y : tensor R) :
  dims y = dims x → has_shape B T F x → has_shape B T F y.
Proof. unfold has_shape. by intros ->. Qed.

Lemma feed_forward_shape (W : weights) (d d_ffn : nat) (act : module scalar)
    (l B T : nat) (x y : tensor scalar) :
  has_shape B T d x → feed_forward W d d_ffn act l x = Ok y →
  has_shape B T d y.
Proof.
  intros Hx. unfold feed_forward, mbind, result_bind.
  destruct (act _) as [hidden|]; [|done]. intros Hz.
  apply tensor_add_dims in Hz. by eapply has_shape_dims.
Qed.

Lemma encoder_layer_shape (W : weights) (kw : interface_args scalar)
    (act : module scalar) (m : option mask) (p : option padding_mask)
    (l : nat) (B T : nat) (x out : tensor scalar)
    (a : list (tensor scalar)) :
  has_shape B T (ti_input_size kw) x →
  encoder_layer W kw act m p l x = Ok (out, a) →
  has_shape B T (ti_input_size kw) out.
Proof.
  intros Hx. unfold encoder_layer, mbind, result_bind; simpl.
  destruct (feed_forward _ _ _ _ _ _) as [y|] eqn:Hy; [|done].
  intros [= <- _]. apply layer_norm_shape.
  eapply feed_forward_shape; [|exact Hy].
  by apply layer_norm_shape, attend_shape.
Qed.

Lemma encoder_layers_shape (W : weights) (kw : interface_args scalar)
    (act : module scalar) (m : option mask) (p : option padding_mask)
    (layers : list nat) (B T : nat) (x out : tensor scalar)
    (diag : list (tensor scalar)) :
  has_shape B T (ti_input_size kw) x →
  encoder_layers W kw act m p layers x = Ok (out, diag) →
  has_shape B T (ti_input_size kw) out.
Proof.
  revert x out diag. induction layers as [|l layers IH]; intros x out diag Hx.
  - by intros [= <- _].
  - simpl. destruct (encoder_layer _ _ _ _ _ _ _) as [[x1 a]|] eqn:Hl; [|done].
    destruct (encoder_layers _ _ _ _ _ _ _) as [[o d]|] eqn:Hls; [|done].
    intros [= <- _]. eapply IH; [|exact Hls].
    by eapply encoder_layer_shape.
Qed.

Lemma encoder_stack_keeps_shape (W : weights) (kw : interface_args scalar)
    (act : module scalar) :
  encoder_keeps_shape (encoder_stack W kw act).
Proof.
  intros src m p out diag. unfold encoder_stack, encoder_accepts.
  case_bool_decide as Hs; [|done]. simpl.
  destruct (_ && _); [|done].
  destruct (encoder_layers _ _ _ _ _ _ _) as [[y dg]|] eqn:Hrun; [|done].
  intros [= <- _].
  eapply encoder_layers_shape in Hrun; [|exact Hs].
  apply (layer_norm_shape (norm_eps W) (norm_final W)) in Hrun.
  unfold has_shape in *. congruence.
Qed.

(** What the constructor of the reference interface returns. *)
Lemma TransformerInterface_inv (W : weights) (kw : interface_args scalar)
    (enc : encoder_module scalar) :
  TransformerInterface W kw = Ok enc →
  ∃ act, ti_activation kw tt = Ok act ∧ enc = encoder_stack W kw act.
Proof.
  unfold TransformerInterface, mbind, result_bind, mret, result_ret.
  destruct (heads_fit kw); [|done].
  destruct (ti_activation kw tt) as [act|]; [|done]. intros [= <-].
  by exists act.
Qed.

(** The reference encoder keeps the shape of what it accepts. *)
Lemma TransformerInterface_keeps_shape (W : weights)
    (kw : interface_args scalar) (enc : encoder_module scalar) :
  TransformerInterface W kw = Ok enc → encoder_keeps_shape enc.
Proof.
  intros (act & _ & ->)%TransformerInterface_inv.
  apply encoder_stack_keeps_shape.
Qed.

(** The reference linear layer maps the last dimension. *)
Lemma Linear_projects (init : linear_params) (n_out n_in : nat)
    (with_bias : bool) (lin : module scalar) :
  Linear init n_out n_in with_bias = Ok lin → projects n_in n_out lin.
Proof.
  intros [= <-] B T x y Hx. destruct (width_is n_in x); [|done].
  intros [= <-]. eapply framewise_shape; [|exact Hx].
  intros v _. destruct with_bias; [apply affine_length|apply linear_length].
Qed.

Lemma activation_of_keeps_shape (g : scalar → scalar) (act : module scalar) :
  activation_of g tt = Ok act → keeps_shape act.
Proof. intros [= <-] x y [= <-]. apply elementwise_dims. Qed.



Lemma has_shape_time_dim {R : Type} (B T F : nat) (x : tensor R) :
  has_shape B T F x → has_shape (length x) (time_dim x) F x.
Proof.
  rewrite !has_shape_Forall. intros [_ Hall]. split; [done|].
  destruct x as [|u x]; [constructor|]. simpl.
  inversion Hall as [|? ? [Hu _] _]; subst.
  eapply Forall_impl; [exact Hall|]. intros u' [-> Hw]. by split.
Qed.

Lemma lookahead_square (T : nat) :
  length <$> lookahead T = replicate T T.
Proof.
  unfold lookahead. rewrite <- list_fmap_compose.
  rewrite (const_fmap _ (seq 0 T) T).
  - by rewrite length_seq.
  - intros _ i _. unfold compose. cbv beta. by rewrite length_fmap, length_seq.
Qed.

Lemma width_is_has_shape (B T n : nat) (x : tensor scalar) :
  has_shape B T n x → width_is n x = true.
Proof.
  rewrite has_shape_Forall. intros [_ Hall]. unfold width_is.
  apply bool_decide_eq_true_2. eapply Forall_impl; [exact Hall|].
  by intros u [_ Hw].
Qed.

Lemma encoder_accepts_lookahead (d B T : nat) (x : tensor scalar)
    (pad : option padding_mask) :
  has_shape B T d x → pad_fits x pad →
  encoder_accepts d x (Some (lookahead (time_dim x))) pad = true.
Proof.
  intros Hx Hp. unfold encoder_accepts.
  rewrite bool_decide_eq_true_2 by (by eapply has_shape_time_dim).
  rewrite bool_decide_eq_true_2 by apply lookahead_square. simpl.
  destruct pad as [p|]; [|done]. by apply bool_decide_eq_true_2.
Qed.

Lemma encoder_accepts_no_mask (d B T : nat) (x : tensor scalar)
    (pad : option padding_mask) :
  has_shape B T d x → pad_fits x pad → encoder_accepts d x None pad = true.
Proof.
  intros Hx Hp. unfold encoder_accepts.
  rewrite bool_decide_eq_true_2 by (by eapply has_shape_time_dim). simpl.
  destruct pad as [p|]; [|done]. by apply bool_decide_eq_true_2.
Qed.

Lemma feed_forward_total (W : weights) (d d_ffn : nat) (g : scalar → scalar)
    (l B T : nat) (x : tensor scalar) :
  has_shape B T d x →
  ∃ y, feed_forward W d d_ffn (λ t, Ok (elementwise g t)) l x = Ok y.
Proof.
  intros Hx. unfold feed_forward, mbind, result_bind.
  apply tensor_add_total. unfold has_shape in Hx. rewrite Hx. symmetry.
  apply (framewise_shape _ _ B T d_ffn); [intros v _; apply affine_length|].
  eapply has_shape_dims; [apply elementwise_dims|].
  eapply framewise_shape; [intros v _; apply affine_length|exact Hx].
Qed.

Lemma encoder_layer_total (W : weights) (kw : interface_args scalar)
    (g : scalar → scalar) (m : option mask) (p : option padding_mask)
    (l : nat) (B T : nat) (x : tensor scalar) :
  has_shape B T (ti_input_size kw) x →
  ∃ out a, encoder_layer W kw (λ t, Ok (elementwise g t)) m p l x
           = Ok (out, a).
Proof.
  intros Hx. unfold encoder_layer, mbind, result_bind.
  apply (attend_shape W _ (ti_nhead kw) l m p) in Hx.
  apply (layer_norm_shape (norm_eps W) (norm1 W l)) in Hx.
  destruct (feed_forward_total W _ (ti_d_ffn kw) g l _ _ _ Hx) as [y ->].
  by eexists _, _.
Qed.

Lemma encoder_layers_total (W : weights) (kw : interface_args scalar)
    (g : scalar → scalar) (m : option mask) (p : option padding_mask)
    (layers : list nat) (B T : nat) (x : tensor scalar) :
  has_shape B T (ti_input_size kw) x →
  ∃ out diag, encoder_layers W kw (λ t, Ok (elementwise g t)) m p layers x
              = Ok (out, diag).
Proof.
  revert x. induction layers as [|l layers IH]; intros x Hx; simpl.
  - by eexists _, _.
  - destruct (encoder_layer_total W kw g m p l B T x Hx) as (x1 & a & Hl).
    rewrite Hl. eapply encoder_layer_shape in Hx; [|exact Hl].
    destruct (IH x1 Hx) as (out & diag & ->). by eexists _, _.
Qed.

End ReferenceShapes.

(** ** The reference collaborators: numbers and NaN *)

Section ReferenceNumbers.
Import Reference.

Lemma smul_0_l (a : scalar) : is_num a → smul (Num 0) a = Num 0.
Proof. destruct a; simpl; [|done]. intros _. f_equal. apply Rmult_0_l. Qed.

Lemma is_num_sadd (a b : scalar) : is_num a → is_num b → is_num (sadd a b).
Proof. by destruct a, b. Qed.

Lemma is_num_ssub (a b : scalar) : is_num a → is_num b → is_num (ssub a b).
Proof. by destruct a, b. Qed.

Lemma is_num_smul (a b : scalar) : is_num a → is_num b → is_num (smul a b).
Proof. by destruct a, b. Qed.

Lemma is_num_sinv_sqrt (a : scalar) : is_num a → is_num (sinv_sqrt a).
Proof. by destruct a. Qed.

Lemma is_num_inv (a : scalar) : is_num a → ∃ r, a = Num r.
Proof. destruct a as [r|]; [by exists r|done]. Qed.

Lemma is_num_ssum (l : list scalar) : Forall is_num l → is_num (ssum l).
Proof.
  unfold ssum. induction 1 as [|a l Ha _ IH]; simpl; [done|].
  by apply is_num_sadd.
Qed.

Lemma nums_zip_with (f : scalar → scalar → scalar) (v w : list scalar) :
  (∀ a b, is_num a → is_num b → is_num (f a b)) →
  Forall is_num v → Forall is_num w → Forall is_num (zip_with f v w).
Proof.
  intros Hf Hv. revert w.
  induction Hv as [|a v Ha _ IH]; intros w Hw; [constructor|].
  destruct Hw as [|b w Hb Hw]; simpl; [constructor|].
  constructor; [by apply Hf|by apply IH].
Qed.

Lemma is_num_dot (w v : list scalar) :
  Forall is_num w → Forall is_num v → is_num (dot w v).
Proof.
  intros Hw Hv. apply is_num_ssum, nums_zip_with; [|done..].
  apply is_num_smul.
Qed.

Lemma nums_weights (p : linear_params) (r cols : nat) :
  Forall is_num ((λ c, Num (weight p r c)) <$> seq 0 cols).
Proof. rewrite Forall_fmap. by apply Forall_true. Qed.

Lemma affine_nums (rows cols : nat) (p : linear_params) (v : list scalar) :
  Forall is_num v → Forall is_num (affine rows cols p v).
Proof.
  intros Hv. unfold affine. rewrite Forall_fmap. apply Forall_true.
  intros r. simpl. apply is_num_sadd; [|done].
  by apply is_num_dot; [apply nums_weights|].
Qed.


Lemma is_num_mean (v : list scalar) : Forall is_num v → is_num (mean v).
Proof. intros Hv. unfold mean. by apply is_num_smul, is_num_ssum. Qed.

Lemma layer_norm_nums (eps : R) (np : norm_params) (v : list scalar) :
  Forall is_num v → Forall is_num (layer_norm eps np v).
Proof.
  intros Hv. unfold layer_norm. apply Forall_lookup. intros f a.
  rewrite list_lookup_imap. destruct (v !! f) as [b|] eqn:Hb; [|done].
  simpl. intros [= <-].
  pose proof (is_num_mean v Hv) as Hmu.
  pose proof (Forall_lookup_1 _ _ _ _ Hv Hb) as Hnb.
  apply is_num_sadd; [|done]. apply is_num_smul; [|done].
  apply is_num_smul; [by apply is_num_ssub|].
  apply is_num_sinv_sqrt, is_num_sadd; [|done].
  apply is_num_mean. rewrite Forall_fmap.
  eapply Forall_impl; [exact Hv|]. intros c Hc. simpl.
  by apply is_num_smul; apply is_num_ssub.
Qed.

(** *** Tensors without NaN *)

Lemma framewise_all_num (f : list scalar → list scalar) (x : tensor scalar) :
  (∀ v, Forall is_num v → Forall is_num (f v)) →
  all_num x → all_num (framewise f x).
Proof.
  intros Hf. unfold all_num, all_elements, framewise.
  intros Hx. rewrite Forall_fmap. eapply Forall_impl; [exact Hx|].
  intros u Hu. simpl. rewrite Forall_fmap.
  eapply Forall_impl; [exact Hu|]. intros v. apply Hf.
Qed.


Lemma tensor_add_all_num (x y z : tensor scalar) :
  all_num x → all_num y → tensor_add x y = Ok z → all_num z.
Proof.
  unfold tensor_add. destruct (bool_decide _); [|done].
  intros Hx Hy [= <-]. revert y Hy. unfold all_num, all_elements in *.
  induction Hx as [|u x Hu _ IH]; intros y Hy; [constructor|].
  destruct Hy as [|u' y Hu' Hy]; simpl; [constructor|].
  constructor; [|by apply IH]. clear IH Hy. revert u' Hu'.
  induction Hu as [|v u Hv _ IH]; intros u' Hu'; [constructor|].
  destruct Hu' as [|v' u' Hv' Hu']; simpl; [constructor|].
  constructor; [|by apply IH].
  apply nums_zip_with; [apply is_num_sadd|done..].
Qed.



Lemma feed_forward_all_num (W : weights) (d d_ffn : nat) (act : module scalar)
    (l : nat) (x y : tensor scalar) :
  num_module act → all_num x → feed_forward W d d_ffn act l x = Ok y →
  all_num y.
Proof.
  intros Hact Hx. unfold feed_forward, mbind, result_bind.
  destruct (act _) as [hidden|] eqn:Hh; [|done].
  apply tensor_add_all_num; [done|].
  apply framewise_all_num; [intros v; apply affine_nums|].
  eapply Hact; [|exact Hh].
  apply framewise_all_num; [intros v; apply affine_nums|done].
Qed.

(** *** Attention weights *)

Lemma ssum_cons (a : scalar) (l : list scalar) :
  ssum (a :: l) = sadd a (ssum l).
Proof. done. Qed.

Lemma ssum_nonneg (l : list scalar) :
  Forall nonneg l → ∃ S, ssum l = Num S ∧ (0 <= S)%R.
Proof.
  induction 1 as [|a l Ha _ (S & HS & HS0)].
  - exists 0%R. split; [done|]. apply Rle_refl.
  - destruct a as [r|]; [|done]. simpl in Ha.
    exists (r + S)%R. rewrite ssum_cons, HS. split; [done|]. lra.
Qed.

Lemma ssum_positive (l : list scalar) :
  Forall nonneg l → Exists positive l → ∃ S, ssum l = Num S ∧ (0 < S)%R.
Proof.
  intros Hl Hex. induction Hl as [|a l Ha Hl IH].
  - by apply Exists_nil in Hex.
  - destruct a as [r|]; [|done]. simpl in Ha.
    destruct (ssum_nonneg l Hl) as (S & HS & HS0).
    rewrite ssum_cons, HS. exists (r + S)%R. split; [done|].
    apply Exists_cons in Hex as [Hr|Hex]; [simpl in Hr; lra|].
    destruct (IH Hex) as (S' & HS' & HS'0). rewrite HS in HS'.
    injection HS' as ->. lra.
Qed.

Lemma sdiv_num (r S : R) : S ≠ 0%R → sdiv (Num r) (Num S) = Num (r / S).
Proof. intros HS. unfold sdiv. by destruct (Req_EM_T S 0). Qed.

Lemma sdiv_0_l (S : R) : S ≠ 0%R → sdiv (Num 0) (Num S) = Num 0.
Proof.
  intros HS. rewrite sdiv_num by done. f_equal. unfold Rdiv.
  apply Rmult_0_l.
Qed.


Lemma score_num (hp : head_params) (d d_h : nat) (q k : list scalar) :
  Forall is_num q → Forall is_num k → is_num (score hp d d_h q k).
Proof.
  intros Hq Hk. unfold score. apply is_num_smul; [done|].
  by apply is_num_dot; apply affine_nums.
Qed.

Lemma exp_scores_lookup (hp : head_params) (d d_h : nat) (m : option mask)
    (p : option (list bool)) (u : list (list scalar)) (i j : nat)
    (q k : list scalar) :
  Forall is_num q → Forall is_num k → u !! j = Some k →
  ∃ s, score hp d d_h q k = Num s ∧
       exp_scores hp d d_h m p u i q !! j
       = Some (if forbidden m i j || padded p j then Num 0 else Num (exp s)).
Proof.
  intros Hq Hk Hj.
  destruct (is_num_inv _ (score_num hp d d_h q k Hq Hk)) as [s Hs].
  exists s. split; [done|]. unfold exp_scores.
  rewrite list_lookup_imap, Hj. simpl. rewrite Hs. unfold unnormalised.
  by destruct (_ || _).
Qed.

Lemma exp_scores_length (hp : head_params) (d d_h : nat) (m : option mask)
    (p : option (list bool)) (u : list (list scalar)) (i : nat)
    (q : list scalar) :
  length (exp_scores hp d d_h m p u i q) = length u.
Proof. unfold exp_scores. apply length_imap. Qed.

Lemma exp_scores_nonneg (hp : head_params) (d d_h : nat) (m : option mask)
    (p : option (list bool)) (u : list (list scalar)) (i : nat)
    (q : list scalar) :
  Forall is_num q → Forall (Forall is_num) u →
  Forall nonneg (exp_scores hp d d_h m p u i q).
Proof.
  intros Hq Hu. apply Forall_lookup. intros j a Ha.
  destruct (u !! j) as [k|] eqn:Hk.
  - pose proof (Forall_lookup_1 _ _ _ _ Hu Hk) as Hnk.
    destruct (exp_scores_lookup hp d d_h m p u i j q k Hq Hnk Hk)
      as (s & _ & He).
    rewrite He in Ha. injection Ha as <-.
    destruct (_ || _); simpl; [apply Rle_refl|]. left. apply exp_pos.
  - apply lookup_ge_None in Hk. apply lookup_lt_Some in Ha.
    rewrite exp_scores_length in Ha. lia.
Qed.

Lemma exp_scores_positive (hp : head_params) (d d_h : nat) (m : option mask)
    (p : option (list bool)) (u : list (list scalar)) (i : nat)
    (q : list scalar) :
  Forall is_num q → Forall (Forall is_num) u → live m p i (length u) →
  Exists positive (exp_scores hp d d_h m p u i q).
Proof.
  intros Hq Hu (j & Hj & Hm & Hp).
  destruct (lookup_lt_is_Some_2 u j Hj) as [k Hk].
  pose proof (Forall_lookup_1 _ _ _ _ Hu Hk) as Hnk.
  destruct (exp_scores_lookup hp d d_h m p u i j q k Hq Hnk Hk)
    as (s & _ & He).
  rewrite Hm, Hp in He. simpl in He.
  apply Exists_exists. exists (Num (exp s)). split.
  - by eapply list_elem_of_lookup_2.
  - apply exp_pos.
Qed.

(** The weights of a position that has something to attend to: the
    unnormalised weights divided by their positive sum. *)
Lemma attention_row_live (hp : head_params) (d d_h : nat) (m : option mask)
    (p : option (list bool)) (u : list (list scalar)) (i : nat)
    (q : list scalar) :
  Forall is_num q → Forall (Forall is_num) u → live m p i (length u) →
  ∃ S, (0 < S)%R ∧
       ssum (exp_scores hp d d_h m p u i q) = Num S ∧
       attention_row hp d d_h m p u i q
       = (λ a, sdiv a (Num S)) <$> exp_scores hp d d_h m p u i q.
Proof.
  intros Hq Hu Hlive.
  destruct (ssum_positive _ (exp_scores_nonneg hp d d_h m p u i q Hq Hu)
              (exp_scores_positive hp d d_h m p u i q Hq Hu Hlive))
    as (S & HS & HS0).
  exists S. split; [done|]. split; [done|].
  unfold attention_row, normalise. by rewrite HS.
Qed.

Lemma attention_row_nonneg (hp : head_params) (d d_h : nat)
    (m : option mask) (p : option (list bool)) (u : list (list scalar))
    (i : nat) (q : list scalar) :
  Forall is_num q → Forall (Forall is_num) u → live m p i (length u) →
  Forall nonneg (attention_row hp d d_h m p u i q).
Proof.
  intros Hq Hu Hlive.
  destruct (attention_row_live hp d d_h m p u i q Hq Hu Hlive)
    as (S & HS0 & _ & ->).
  rewrite Forall_fmap.
  eapply Forall_impl; [by apply exp_scores_nonneg|].
  intros [r|] Hr; [|done]. simpl in *.
  destruct (Req_EM_T S 0) as [->|_]; [lra|]. simpl.
  apply Rmult_le_pos; [done|]. left. by apply Rinv_0_lt_compat.
Qed.

Lemma nonneg_is_num (a : scalar) : nonneg a → is_num a.
Proof. by destruct a. Qed.

Lemma attention_row_length (hp : head_params) (d d_h : nat)
    (m : option mask) (p : option (list bool)) (u : list (list scalar))
    (i : nat) (q : list scalar) :
  length (attention_row hp d d_h m p u i q) = length u.
Proof.
  unfold attention_row, normalise. by rewrite length_fmap, exp_scores_length.
Qed.

Lemma context_nums (d_h : nat) (a : list scalar) (vs : list (list scalar)) :
  Forall is_num a →
  Forall (λ v, Forall is_num v ∧ length v = d_h) vs →
  Forall is_num (context d_h a vs).
Proof.
  intros Ha Hvs. unfold context. rewrite Forall_fmap.
  apply Forall_forall. intros f Hf. simpl.
  apply elem_of_seq in Hf as [_ Hf]. simpl in Hf.
  apply is_num_ssum. revert vs Hvs.
  induction Ha as [|w a Hw _ IH]; intros vs Hvs; [constructor|].
  destruct Hvs as [|v vs [Hv Hl] Hvs]; simpl; [constructor|].
  constructor; [|by apply IH].
  apply is_num_smul; [done|].
  destruct (lookup_lt_is_Some_2 v f) as [c Hc]; [lia|].
  rewrite (list_lookup_total_correct _ _ _ Hc).
  by eapply Forall_lookup_1.
Qed.

Lemma values_nums (hp : head_params) (d d_h : nat) (u : list (list scalar)) :
  Forall (Forall is_num) u →
  Forall (λ v, Forall is_num v ∧ length v = d_h)
    (affine d_h d (value hp) <$> u).
Proof.
  intros Hu. rewrite Forall_fmap. eapply Forall_impl; [exact Hu|].
  intros k Hk. simpl. split; [by apply affine_nums|apply affine_length].
Qed.

Lemma head_output_nums (hp : head_params) (d d_h : nat) (m : option mask)
    (p : option (list bool)) (u : list (list scalar)) (i : nat)
    (q : list scalar) :
  Forall is_num q → Forall (Forall is_num) u → live m p i (length u) →
  Forall is_num (head_output hp d d_h m p u i q).
Proof.
  intros Hq Hu Hlive. unfold head_output. apply affine_nums, context_nums.
  - eapply Forall_impl; [by apply attention_row_nonneg|].
    apply nonneg_is_num.
  - by apply values_nums.
Qed.

Lemma vsum_nums (d : nat) (vs : list (list scalar)) :
  Forall (Forall is_num) vs → Forall is_num (vsum d vs).
Proof.
  unfold vsum. induction 1 as [|v vs Hv _ IH]; simpl.
  - by apply Forall_replicate.
  - apply nums_zip_with; [apply is_num_sadd|done..].
Qed.

(** The frame of a position that has something to attend to holds no NaN. *)
Lemma attend_lookup_nums (W : weights) (d nhead l : nat) (m : option mask)
    (p : option (list bool)) (u : list (list scalar)) (i : nat)
    (v : list scalar) :
  Forall (Forall is_num) u → live m p i (length u) →
  attend W d nhead l m p u !! i = Some v → Forall is_num v.
Proof.
  intros Hu Hlive. unfold attend. rewrite list_lookup_imap.
  destruct (u !! i) as [q|] eqn:Hq; [|done]. simpl. intros [= <-].
  pose proof (Forall_lookup_1 _ _ _ _ Hu Hq) as Hnq.
  apply nums_zip_with; [apply is_num_sadd|done|].
  apply vsum_nums. rewrite Forall_fmap. apply Forall_true. intros h.
  by apply head_output_nums.
Qed.

Lemma live_first (m : option mask) (p : option (list bool)) (i n : nat) :
  open_mask m → padded p 0 = false → 0 < n → live m p i n.
Proof. intros Hm Hp Hn. exists 0. by repeat split. Qed.

Lemma open_mask_None : open_mask None.
Proof. by intros i. Qed.

Lemma open_mask_lookahead (T : nat) : open_mask (Some (lookahead T)).
Proof.
  intros i. unfold forbidden, lookahead. rewrite list_lookup_fmap.
  destruct (seq 0 T !! i) as [i'|]; [|done]. simpl.
  rewrite list_lookup_fmap.
  destruct (seq 0 T !! 0) as [j|] eqn:Hj; [|done]. simpl.
  apply lookup_seq in Hj as [-> _]. by apply bool_decide_eq_false_2; lia.
Qed.

Lemma attend_batch_all_num (W : weights) (d nhead l : nat) (m : option mask)
    (p : option padding_mask) (x : tensor scalar) :
  open_mask m → pad_keeps_first p → all_num x →
  all_num (attend_batch W d nhead l m p x).
Proof.
  intros Hm Hp Hx. unfold attend_batch. apply Forall_lookup. intros b w.
  rewrite list_lookup_imap. destruct (x !! b) as [u|] eqn:Hu; [|done].
  simpl. intros [= <-].
  pose proof (Forall_lookup_1 _ _ _ _ Hx Hu) as Hnu.
  apply Forall_lookup. intros i v Hv.
  eapply attend_lookup_nums; [exact Hnu| |exact Hv].
  apply lookup_lt_Some in Hv. rewrite attend_length in Hv.
  apply live_first; [done|apply Hp|lia].
Qed.

Lemma encoder_layer_all_num (W : weights) (kw : interface_args scalar)
    (act : module scalar) (m : option mask) (p : option padding_mask)
    (l : nat) (x out : tensor scalar) (a : list (tensor scalar)) :
  num_module act → open_mask m → pad_keeps_first p → all_num x →
  encoder_layer W kw act m p l x = Ok (out, a) → all_num out.
Proof.
  intros Hact Hm Hp Hx. unfold encoder_layer, mbind, result_bind.
  destruct (feed_forward _ _ _ _ _ _) as [y|] eqn:Hy; [|done].
  intros [= <- _]. apply framewise_all_num; [apply layer_norm_nums|].
  eapply feed_forward_all_num; [exact Hact| |exact Hy].
  apply framewise_all_num; [apply layer_norm_nums|].
  by apply attend_batch_all_num.
Qed.



End ReferenceNumbers.

(** ** The reference collaborators: what a frame can depend on *)

Section ReferenceCausality.
Import Reference.

Lemma forbidden_lookahead (T i j : nat) :
  i < j → j < T → forbidden (Some (lookahead T)) i j = true.
Proof.
  intros Hij HjT. unfold forbidden, lookahead.
  rewrite list_lookup_fmap, lookup_seq_lt by lia. simpl.
  rewrite list_lookup_fmap, lookup_seq_lt by lia. simpl.
  by apply bool_decide_eq_true_2.
Qed.


Lemma ssum_zeros (k : nat) : ssum (replicate k (Num 0)) = Num 0.
Proof.
  induction k as [|k IH]; [done|].
  change (sadd (Num 0) (ssum (replicate k (Num 0))) = Num 0).
  rewrite IH. simpl. f_equal. apply Rplus_0_r.
Qed.

Lemma ssum_app_zeros (l : list scalar) (k : nat) :
  ssum (l ++ replicate k (Num 0)) = ssum l.
Proof.
  induction l as [|a l IH].
  - apply ssum_zeros.
  - rewrite <- app_comm_cons. by rewrite !ssum_cons, IH.
Qed.

(** Under a lookahead mask the unnormalised weights of position [i] towards
    the positions after it are zero. *)
Lemma exp_scores_dead_tail (hp : head_params) (d d_h T : nat)
    (p : option (list bool)) (u1 u2 : list (list scalar)) (i : nat)
    (q : list scalar) :
  Forall is_num q → Forall (Forall is_num) u2 →
  i < length u1 → length (u1 ++ u2) ≤ T →
  exp_scores hp d d_h (Some (lookahead T)) p (u1 ++ u2) i q
  = exp_scores hp d d_h (Some (lookahead T)) p u1 i q
    ++ replicate (length u2) (Num 0).
Proof.
  intros Hq Hu2 Hi HT. unfold exp_scores. rewrite imap_app. f_equal.
  rewrite length_app in HT.
  apply list_eq. intros j. rewrite list_lookup_imap.
  destruct (u2 !! j) as [k|] eqn:Hk; simpl.
  - pose proof (lookup_lt_Some _ _ _ Hk) as Hj.
    rewrite lookup_replicate_2 by done. f_equal.
    fold (forbidden (Some (lookahead T)) i (length u1 + j)).
    rewrite forbidden_lookahead by lia. simpl.
    pose proof (Forall_lookup_1 _ _ _ _ Hu2 Hk) as Hnk.
    by destruct (is_num_inv _ (score_num hp d d_h q k Hq Hnk)) as [s ->].
  - symmetry. apply lookup_replicate_None. by apply lookup_ge_None.
Qed.

(** Under a lookahead mask the weights of position [i] are those it has
    among the positions up to any later one, and zero beyond. *)
Lemma attention_row_prefix (hp : head_params) (d d_h T : nat)
    (p : option (list bool)) (u1 u2 : list (list scalar)) (i : nat)
    (q : list scalar) :
  Forall is_num q → Forall (Forall is_num) (u1 ++ u2) →
  padded p 0 = false → i < length u1 → length (u1 ++ u2) ≤ T →
  attention_row hp d d_h (Some (lookahead T)) p (u1 ++ u2) i q
  = attention_row hp d d_h (Some (lookahead T)) p u1 i q
    ++ replicate (length u2) (Num 0).
Proof.
  intros Hq Hu Hp Hi HT. apply Forall_app in Hu as [Hu1 Hu2].
  unfold attention_row, normalise.
  rewrite exp_scores_dead_tail by done.
  rewrite ssum_app_zeros, fmap_app, fmap_replicate. f_equal.
  destruct (attention_row_live hp d d_h (Some (lookahead T)) p u1 i q Hq Hu1)
    as (S & HS0 & -> & _).
  { apply live_first; [apply open_mask_lookahead|done|lia]. }
  f_equal. apply sdiv_0_l. lra.
Qed.

Lemma zip_zeros (f k : nat) (vs : list (list scalar)) :
  Forall (λ v, is_num (v !!! f)) vs →
  zip_with (λ w v, smul w (v !!! f)) (replicate k (Num 0)) vs
  = replicate (k `min` length vs) (Num 0).
Proof.
  intros Hvs. revert k.
  induction Hvs as [|v vs Hv _ IH]; intros [|k]; [done..|].
  change (smul (Num 0) (v !!! f)
          :: zip_with (λ w v0, smul w (v0 !!! f)) (replicate k (Num 0)) vs
          = Num 0 :: replicate (k `min` length vs) (Num 0)).
  by rewrite smul_0_l, IH.
Qed.

(** Frames with weight zero contribute nothing to the context. *)
Lemma context_prefix (d_h k : nat) (a : list scalar)
    (vs1 vs2 : list (list scalar)) :
  length a = length vs1 →
  Forall (λ v, Forall is_num v ∧ length v = d_h) vs2 →
  context d_h (a ++ replicate k (Num 0)) (vs1 ++ vs2) = context d_h a vs1.
Proof.
  intros Hl Hvs. unfold context. apply list_fmap_ext.
  intros n f [-> Hf]%lookup_seq. simpl.
  rewrite zip_with_app by done. rewrite zip_zeros.
  - apply ssum_app_zeros.
  - eapply Forall_impl; [exact Hvs|]. intros v [Hv Hlen]. simpl.
    destruct (lookup_lt_is_Some_2 v n) as [c Hc]; [lia|].
    rewrite (list_lookup_total_correct _ _ _ Hc).
    by eapply Forall_lookup_1.
Qed.

Lemma head_output_prefix (hp : head_params) (d d_h T : nat)
    (p : option (list bool)) (u1 u2 : list (list scalar)) (i : nat)
    (q : list scalar) :
  Forall is_num q → Forall (Forall is_num) (u1 ++ u2) →
  padded p 0 = false → i < length u1 → length (u1 ++ u2) ≤ T →
  head_output hp d d_h (Some (lookahead T)) p (u1 ++ u2) i q
  = head_output hp d d_h (Some (lookahead T)) p u1 i q.
Proof.
  intros Hq Hu Hp Hi HT. unfold head_output. f_equal.
  rewrite attention_row_prefix by done. rewrite fmap_app.
  apply context_prefix.
  - by rewrite attention_row_length, length_fmap.
  - apply values_nums. by apply Forall_app in Hu as [_ Hu2].
Qed.

(** Under a lookahead mask the first [n] frames of the attention output are
    computed from the first [n] frames. *)
Lemma attend_take (W : weights) (d nhead l T : nat) (p : option (list bool))
    (u : list (list scalar)) (n : nat) :
  Forall (Forall is_num) u → padded p 0 = false → length u ≤ T →
  take n (attend W d nhead l (Some (lookahead T)) p u)
  = attend W d nhead l (Some (lookahead T)) p (take n u).
Proof.
  intros Hu Hp HT. apply list_eq. intros i.
  destruct (decide (i < n)) as [Hi|Hi].
  - rewrite lookup_take_lt by done. unfold attend.
    rewrite !list_lookup_imap, lookup_take_lt by done.
    destruct (u !! i) as [q|] eqn:Hq; [|done]. simpl. do 3 f_equal.
    apply list_fmap_ext. intros _ h _. simpl.
    pose proof (Forall_lookup_1 _ _ _ _ Hu Hq) as Hnq.
    apply lookup_lt_Some in Hq.
    rewrite <- (take_drop n u) at 1.
    apply head_output_prefix; [done| |done| |].
    + by rewrite take_drop.
    + rewrite length_take. lia.
    + by rewrite take_drop.
  - rewrite lookup_take_ge by lia. symmetry. apply lookup_ge_None.
    rewrite attend_length, length_take. lia.
Qed.

Lemma agree_lookup {R : Type} (n : nat) (x x' : tensor R) (b : nat)
    (u u' : list (list R)) :
  agree n x x' → x !! b = Some u → x' !! b = Some u' → take n u = take n u'.
Proof.
  unfold agree. intros Hag Hu Hu'.
  apply (f_equal (.!! b)) in Hag. rewrite !list_lookup_fmap, Hu, Hu' in Hag.
  by simplify_eq/=.
Qed.

Lemma dims_length {R : Type} (x x' : tensor R) :
  dims x = dims x' → length x = length x'.
Proof.
  unfold dims. intros Hd. apply (f_equal length) in Hd.
  by rewrite !length_fmap in Hd.
Qed.

(** Two tensors of one shape agree when they agree item by item. *)
Lemma agree_intro {R : Type} (n : nat) (x x' : tensor R) :
  length x = length x' →
  (∀ b u u', x !! b = Some u → x' !! b = Some u' → take n u = take n u') →
  agree n x x'.
Proof.
  intros Hlen Hitems. unfold agree. apply list_eq. intros b.
  rewrite !list_lookup_fmap.
  destruct (x !! b) as [u|] eqn:Hu, (x' !! b) as [u'|] eqn:Hu'; simpl.
  - f_equal. by eapply Hitems.
  - apply lookup_lt_Some in Hu. apply lookup_ge_None in Hu'. lia.
  - apply lookup_lt_Some in Hu'. apply lookup_ge_None in Hu. lia.
  - done.
Qed.

Lemma attend_batch_agree (W : weights) (d nhead l T : nat)
    (p : option padding_mask) (n B : nat) (x x' : tensor scalar) :
  has_shape B T d x → has_shape B T d x' → all_num x → all_num x' →
  pad_keeps_first p → agree n x x' →
  agree n (attend_batch W d nhead l (Some (lookahead T)) p x)
          (attend_batch W d nhead l (Some (lookahead T)) p x').
Proof.
  intros Hx Hx' Hn Hn' Hp Hag. apply agree_intro.
  - unfold attend_batch. rewrite !length_imap.
    apply has_shape_Forall in Hx as [-> _].
    by apply has_shape_Forall in Hx' as [-> _].
  - intros b v v'. unfold attend_batch. rewrite !list_lookup_imap.
    destruct (x !! b) as [u|] eqn:Hu; [|done].
    destruct (x' !! b) as [u'|] eqn:Hu'; [|done]. simpl. intros [= <-] [= <-].
    apply has_shape_Forall in Hx as [_ Hx], Hx' as [_ Hx'].
    rewrite Forall_lookup in Hx, Hx'.
    destruct (Hx b u Hu) as [Hl _], (Hx' b u' Hu') as [Hl' _].
    rewrite (attend_take W d nhead l T (pad_row p b) u n
               (Forall_lookup_1 _ _ _ _ Hn Hu) (Hp b)) by lia.
    rewrite (attend_take W d nhead l T (pad_row p b) u' n
               (Forall_lookup_1 _ _ _ _ Hn' Hu') (Hp b)) by lia.
    f_equal. by eapply agree_lookup.
Qed.

Lemma framewise_agree (f : list scalar → list scalar) (n : nat) (x x' : tensor scalar) :
  agree n x x' → agree n (framewise f x) (framewise f x').
Proof.
  unfold agree, framewise. intros Hag.
  rewrite <- !list_fmap_compose.
  assert (Hcomm : ∀ y : tensor scalar,
    (take n ∘ fmap f) <$> y = (fmap f) <$> (take n <$> y)).
  { intros y. rewrite <- list_fmap_compose. apply list_fmap_ext.
    intros _ u _. simpl. by rewrite fmap_take. }
  by rewrite !Hcomm, Hag.
Qed.

Lemma framewise_dims (f : list scalar → list scalar) (x x' : tensor scalar) :
  (∀ v v', length v = length v' → length (f v) = length (f v')) →
  dims x = dims x' → dims (framewise f x) = dims (framewise f x').
Proof.
  intros Hf. revert x'. unfold dims, framewise.
  assert (Hu : ∀ u u' : list (list scalar), length <$> u = length <$> u' →
    length <$> (f <$> u) = length <$> (f <$> u')).
  { induction u as [|v u IH]; intros [|v' u'] Hd; simplify_eq/=; [done|].
    f_equal; [by apply Hf|by apply IH]. }
  induction x as [|u x IH]; intros [|u' x'] Hd; simplify_eq/=; [done|].
  f_equal; [by apply Hu|by apply IH].
Qed.

Lemma layer_norm_alike (eps : R) (np : norm_params) (n : nat)
    (x x' : tensor scalar) :
  dims x = dims x' → agree n x x' →
  dims (framewise (layer_norm eps np) x)
  = dims (framewise (layer_norm eps np) x')
  ∧ agree n (framewise (layer_norm eps np) x)
            (framewise (layer_norm eps np) x').
Proof.
  intros Hd Hag. split; [|by apply framewise_agree].
  apply framewise_dims; [|done]. intros v v' Hl.
  by rewrite !layer_norm_length.
Qed.

Lemma tensor_add_agree (n : nat) (x x' y y' z z' : tensor scalar) :
  agree n x x' → agree n y y' →
  tensor_add x y = Ok z → tensor_add x' y' = Ok z' → agree n z z'.
Proof.
  unfold tensor_add, agree. intros Hx Hy.
  case_bool_decide; [|done]. case_bool_decide; [|done].
  intros [= <-] [= <-].
  assert (Hcomm : ∀ a b : tensor scalar,
    take n <$> zip_with (zip_with (zip_with sadd)) a b
    = zip_with (zip_with (zip_with sadd)) (take n <$> a) (take n <$> b)).
  { induction a as [|u a IH]; intros [|v b]; simpl; [done..|].
    by rewrite zip_with_take, IH. }
  by rewrite !Hcomm, Hx, Hy.
Qed.

Lemma tensor_add_alike (n : nat) (x x' y y' : tensor scalar) :
  dims x = dims x' → dims y = dims y' → agree n x x' → agree n y y' →
  alike n (tensor_add x y) (tensor_add x' y').
Proof.
  intros Hdx Hdy Hx Hy.
  destruct (tensor_add x y) as [z|e] eqn:Hz,
    (tensor_add x' y') as [z'|e'] eqn:Hz'; simpl.
  - split; [|exact (tensor_add_agree n x x' y y' z z' Hx Hy Hz Hz')].
    apply tensor_add_dims in Hz, Hz'. congruence.
  - revert Hz Hz'. unfold tensor_add. rewrite Hdx, Hdy.
    by destruct (bool_decide (dims x' = dims y')).
  - revert Hz Hz'. unfold tensor_add. rewrite Hdx, Hdy.
    by destruct (bool_decide (dims x' = dims y')).
  - done.
Qed.

(** The feed-forward sub-block works frame by frame when its activation
    does. *)
Lemma feed_forward_alike (W : weights) (d d_ffn : nat) (act : module scalar)
    (l n : nat) (x x' : tensor scalar) :
  causal_module act →
  dims x = dims x' → agree n x x' →
  alike n (feed_forward W d d_ffn act l x) (feed_forward W d d_ffn act l x').
Proof.
  intros Hact Hd Hag. unfold feed_forward, mbind, result_bind.
  assert (Hh : alike n
    (act (framewise (affine d_ffn d (ffn_in W l)) x))
    (act (framewise (affine d_ffn d (ffn_in W l)) x'))).
  { apply Hact; [|by apply framewise_agree].
    apply framewise_dims; [|done]. intros v v' _. by rewrite !affine_length. }
  destruct (act (framewise _ x)) as [h|], (act (framewise _ x')) as [h'|];
    simpl in *; try done.
  destruct Hh as [Hdh Hah].
  apply tensor_add_alike; [done| |done|by apply framewise_agree].
  apply framewise_dims; [|done]. intros v v' _. by rewrite !affine_length.
Qed.

Lemma encoder_layer_alike (W : weights) (kw : interface_args scalar)
    (act : module scalar) (T : nat) (p : option padding_mask) (l n B : nat)
    (x x' : tensor scalar) :
  causal_module act → pad_keeps_first p →
  has_shape B T (ti_input_size kw) x → has_shape B T (ti_input_size kw) x' →
  all_num x → all_num x' → agree n x x' →
  alike n (fst <$> encoder_layer W kw act (Some (lookahead T)) p l x)
          (fst <$> encoder_layer W kw act (Some (lookahead T)) p l x').
Proof.
  intros Hact Hp Hx Hx' Hn Hn' Hag. unfold encoder_layer.
  set (a := attend_batch W _ _ l _ p x).
  set (a' := attend_batch W _ _ l _ p x').
  assert (Hda : dims a = dims a').
  { pose proof (attend_shape W _ (ti_nhead kw) l (Some (lookahead T)) p _ _ _
                  Hx) as H1.
    pose proof (attend_shape W _ (ti_nhead kw) l (Some (lookahead T)) p _ _ _
                  Hx') as H2.
    unfold has_shape in H1, H2. subst a a'. congruence. }
  assert (Haa : agree n a a') by (by eapply attend_batch_agree).
  destruct (layer_norm_alike (norm_eps W) (norm1 W l) n a a' Hda Haa)
    as [Hd1 Ha1].
  pose proof (feed_forward_alike W (ti_input_size kw) (ti_d_ffn kw) act l n
                _ _ Hact Hd1 Ha1) as Hff.
  unfold mbind, result_bind, mret, result_ret.
  destruct (feed_forward _ _ _ _ _ _) as [y|],
    (feed_forward _ _ _ _ _ _) as [y'|]; simpl in *; try done.
  destruct Hff as [Hdy Hay]. by apply layer_norm_alike.
Qed.

Lemma encoder_layers_alike (W : weights) (kw : interface_args scalar)
    (act : module scalar) (T : nat) (p : option padding_mask)
    (layers : list nat) (n B : nat) (x x' : tensor scalar) :
  causal_module act → num_module act → pad_keeps_first p →
  has_shape B T (ti_input_size kw) x → has_shape B T (ti_input_size kw) x' →
  all_num x → all_num x' → agree n x x' →
  alike n (fst <$> encoder_layers W kw act (Some (lookahead T)) p layers x)
          (fst <$> encoder_layers W kw act (Some (lookahead T)) p layers x').
Proof.
  intros Hact Hnum Hp. revert x x'.
  induction layers as [|l layers IH]; intros x x' Hx Hx' Hn Hn' Hag; simpl.
  - split; [|done]. unfold has_shape in *. congruence.
  - pose proof (encoder_layer_alike W kw act T p l n B x x' Hact Hp Hx Hx'
                  Hn Hn' Hag) as Hl.
    destruct (encoder_layer W kw act _ p l x) as [[x1 a]|] eqn:H1,
      (encoder_layer W kw act _ p l x') as [[x1' a']|] eqn:H1';
      simpl in Hl; try done.
    destruct Hl as [_ Hag1].
    pose proof (encoder_layer_all_num _ _ _ _ _ _ _ _ _ Hnum
                  (open_mask_lookahead T) Hp Hn H1) as Hn1.
    pose proof (encoder_layer_all_num _ _ _ _ _ _ _ _ _ Hnum
                  (open_mask_lookahead T) Hp Hn' H1') as Hn1'.
    apply encoder_layer_shape with (B:=B) (T:=T) in H1; [|done].
    apply encoder_layer_shape with (B:=B) (T:=T) in H1'; [|done].
    specialize (IH x1 x1' H1 H1' Hn1 Hn1' Hag1).
    destruct (encoder_layers W kw act _ p layers x1) as [[o dg]|],
      (encoder_layers W kw act _ p layers x1') as [[o' dg']|]; done.
Qed.

Lemma dims_time_dim {R : Type} (x x' : tensor R) :
  dims x = dims x' → time_dim x = time_dim x'.
Proof.
  unfold dims. destruct x as [|u x], x' as [|u' x']; intros Hd;
    simplify_eq/=; [done|].
  match goal with H : length <$> u = length <$> u' |- _ =>
    apply (f_equal length) in H; by rewrite !length_fmap in H end.
Qed.

Lemma encoder_accepts_dims (d : nat) (src src' : tensor scalar) (m : option mask)
    (p : option padding_mask) :
  dims src = dims src' →
  encoder_accepts d src m p = encoder_accepts d src' m p.
Proof.
  intros Hd. unfold encoder_accepts.
  rewrite (dims_length _ _ Hd), (dims_time_dim _ _ Hd).
  f_equal. f_equal. apply bool_decide_ext. unfold has_shape. by rewrite Hd.
Qed.

Lemma encoder_accepts_inv (d T : nat) (src : tensor scalar)
    (p : option padding_mask) :
  encoder_accepts d src (Some (lookahead T)) p = true →
  has_shape (length src) T d src.
Proof.
  unfold encoder_accepts. intros Hacc.
  apply andb_prop in Hacc as [Hacc _]. apply andb_prop in Hacc as [Hs Hm].
  apply bool_decide_eq_true_1 in Hs, Hm.
  rewrite lookahead_square in Hm. apply (f_equal length) in Hm.
  rewrite !length_replicate in Hm. by rewrite Hm.
Qed.

Lemma encoder_stack_causal (W : weights) (kw : interface_args scalar)
    (act : module scalar) :
  causal_module act → num_module act → causal_encoder (encoder_stack W kw act).
Proof.
  intros Hact Hnum T n src src' pad Hn Hn' Hp Hd Hag. unfold encoder_stack.
  rewrite <- (encoder_accepts_dims _ _ _ _ _ Hd).
  destruct (encoder_accepts _ src _ pad) eqn:Hacc; [|done].
  pose proof (encoder_accepts_inv _ _ _ _ Hacc) as Hs.
  assert (Hs' : has_shape (length src) T (ti_input_size kw) src').
  { unfold has_shape in *. by rewrite <- Hd. }
  pose proof (encoder_layers_alike W kw act T pad
                (seq 0 (ti_num_encoder_layers kw)) n _ src src' Hact Hnum Hp
                Hs Hs' Hn Hn' Hag) as Hl.
  destruct (encoder_layers _ _ _ _ _ _ src) as [[y dg]|],
    (encoder_layers _ _ _ _ _ _ src') as [[y' dg']|]; simpl in *; try done.
  destruct Hl as [Hdy Hay]. by apply layer_norm_alike.
Qed.

(** The reference encoder, given a lookahead mask, is causal when its inner
    activation is. *)
Lemma TransformerInterface_causal (W : weights) (kw : interface_args scalar)
    (enc : encoder_module scalar) :
  (∀ act, ti_activation kw tt = Ok act → causal_module act ∧ num_module act) →
  TransformerInterface W kw = Ok enc → causal_encoder enc.
Proof.
  intros Hkw (act & Hact & ->)%TransformerInterface_inv.
  destruct (Hkw act Hact). by apply encoder_stack_causal.
Qed.




(** *** Attention maps *)






(** *** From the contracts to [forward] *)




End ReferenceCausality.

(** ** The reference collaborators: a stack of one layer *)

Section ReferenceOneLayer.
Import Reference.

Lemma framewise_compose (f g : list scalar → list scalar)
    (x : tensor scalar) :
  framewise f (framewise g x) = framewise (f ∘ g) x.
Proof.
  unfold framewise. rewrite <- list_fmap_compose. apply list_fmap_ext.
  intros _ u _. simpl. by rewrite <- list_fmap_compose.
Qed.

Lemma tensor_add_framewise (F : list scalar → list scalar)
    (x : tensor scalar) :
  zip_with (zip_with (zip_with sadd)) x (framewise F x)
  = framewise (λ v, zip_with sadd v (F v)) x.
Proof.
  unfold framewise. induction x as [|u x IH]; [done|].
  simpl. f_equal; [|exact IH]. clear IH.
  induction u as [|v u IH]; [done|]. simpl. by f_equal.
Qed.

Lemma feed_forward_elementwise (W : weights) (d d_ffn : nat)
    (g : scalar → scalar) (l B T : nat) (x : tensor scalar) :
  has_shape B T d x →
  feed_forward W d d_ffn (λ t, Ok (elementwise g t)) l x
  = Ok (framewise (ffn_frame W d d_ffn g l) x).
Proof.
  intros Hx. unfold feed_forward, mbind, result_bind, tensor_add.
  rewrite bool_decide_eq_true_2.
  - f_equal. unfold elementwise. rewrite !framewise_compose.
    apply tensor_add_framewise.
  - unfold has_shape in Hx. rewrite Hx. symmetry.
    apply (framewise_shape _ _ B T d_ffn); [intros v _; apply affine_length|].
    eapply has_shape_dims; [apply elementwise_dims|].
    eapply framewise_shape; [intros v _; apply affine_length|exact Hx].
Qed.

(** A stack of one layer is the attention followed by [encoder_frame] on
    every frame. *)
Lemma encoder_stack_one_layer (W : weights) (kw : interface_args scalar)
    (g : scalar → scalar) (m : option mask) (p : option padding_mask)
    (B T : nat) (src : tensor scalar) :
  ti_num_encoder_layers kw = 1 →
  has_shape B T (ti_input_size kw) src →
  encoder_accepts (ti_input_size kw) src m p = true →
  fst <$> encoder_stack W kw (λ t, Ok (elementwise g t)) src m p
  = Ok (framewise (encoder_frame W (ti_input_size kw) (ti_d_ffn kw) g)
          (attend_batch W (ti_input_size kw) (ti_nhead kw) 0 m p src)).
Proof.
  intros Hone Hsrc Hacc. unfold encoder_stack. rewrite Hacc, Hone.
  change (seq 0 1) with [0]. unfold encoder_layers, encoder_layer.
  rewrite (feed_forward_elementwise W _ _ g 0 B T).
  - unfold mbind, result_bind, mret, result_ret. simpl.
    by rewrite !framewise_compose.
  - by apply layer_norm_shape, attend_shape.
Qed.

(** The component of one layer over the reference collaborators, with
    elementwise activations: the attention, then [output_frame] on every
    frame. *)
Lemma reference_forward_one_layer (W : weights) (init : linear_params)
    (g h : scalar → scalar) (n_out d nhead d_ffn : nat) (dropout : Q)
    (c : bool) (emb : option (module scalar))
    (w0 w0' : unit * list (event scalar)) (self : CNNTransformerSE scalar)
    (B T : nat) (x x1 : tensor scalar) (pad : option padding_mask)
    (tr : list (event scalar)) :
  __init__ (TransformerInterface W) (Linear init)
    (Args.Make n_out d (activation_of h) nhead 1 d_ffn dropout
       (activation_of g) c emb) w0 = (Ok self, w0') →
  match emb with Some f => f x | None => Ok x end = Ok x1 →
  has_shape B T d x1 → time_dim x1 = time_dim x → pad_fits x1 pad →
  (forward get_lookahead_mask x pad (self, tr)).1
  = Ok (framewise (output_frame W init d d_ffn n_out g h)
          (attend_batch W d nhead 0
             (if c then Some (lookahead (time_dim x)) else None) pad x1)).
Proof.
  intros Hinit Hemb Hx1 Ht Hp.
  apply init_inv in Hinit as (enc & lin & act & Henc & Hlin & Hact & ->).
  apply TransformerInterface_inv in Henc as (a & Ha & ->).
  simpl in Ha, Hlin, Hact. revert Ha Hlin Hact. intros [= <-] [= <-] [= <-].
  rewrite forward_run. simpl.
  unfold spec_pipeline, step_mask, step_embed, step_encode,
    get_lookahead_mask. simpl. rewrite Hemb.
  set (kw := init_kwargs _).
  set (m := if c then Some (lookahead (time_dim x)) else None).
  assert (Hacc : encoder_accepts d x1 m pad = true).
  { subst m. destruct c.
    - rewrite <- Ht. by eapply encoder_accepts_lookahead.
    - by eapply encoder_accepts_no_mask. }
  pose proof (encoder_stack_one_layer W kw g m pad B T x1 eq_refl Hx1 Hacc)
    as Hrun.
  assert (Hm : (if c then Ok (Some (lookahead (time_dim x))) else Ok None)
               = Ok m :> result (option mask)) by (by destruct c).
  rewrite Hm.
  destruct (encoder_stack W kw _ x1 m pad) as [[y dg]|]; [|done].
  simpl in Hrun. injection Hrun as ->.
  rewrite (width_is_has_shape B T).
  - unfold output_frame, elementwise. by rewrite !framewise_compose.
  - apply (framewise_shape _ _ B T d); [|by apply attend_shape].
    intros v Hv. unfold encoder_frame, ffn_frame.
    rewrite !layer_norm_length, length_zip_with, affine_length,
      layer_norm_length. lia.
Qed.



(** *** Frames of width 1 *)

(** A frame of width 1 is its own mean: the normalisation returns the
    shift, or NaN. *)
Lemma layer_norm_1 (eps : R) (np : norm_params) (a : scalar) :
  layer_norm eps np [a]
  = [match a with Num _ => Num (beta np 0) | NaN => NaN end].
Proof.
  destruct a as [r|]; [|done]. unfold layer_norm, mean. simpl.
  do 2 f_equal. rewrite Rinv_1. ring.
Qed.

Lemma nums_1 (v : list scalar) :
  length v = 1 → Forall is_num v → ∃ r, v = [Num r].
Proof.
  destruct v as [|a [|? ?]]; try done. intros _ Ha.
  apply Forall_cons in Ha as [[r ->]%is_num_inv _]. by exists r.
Qed.

Lemma ffn_frame_nums (W : weights) (d d_ffn : nat) (g : scalar → scalar)
    (l : nat) (v : list scalar) :
  numeric g → Forall is_num v → Forall is_num (ffn_frame W d d_ffn g l v).
Proof.
  intros Hg Hv. unfold ffn_frame.
  apply nums_zip_with; [apply is_num_sadd|done|].
  apply affine_nums. rewrite Forall_fmap.
  eapply Forall_impl; [by apply affine_nums|].
  intros a [r ->]%is_num_inv. apply Hg.
Qed.

Lemma leaky_relu_numeric : numeric leaky_relu.
Proof. intros r. unfold leaky_relu. by destruct (Rle_dec 0 r). Qed.

Lemma relu_numeric : numeric relu.
Proof. intros r. unfold relu. by destruct (Rle_dec 0 r). Qed.

Lemma relu_zero (r : R) : r = 0%R → relu (Num r) = Num 0.
Proof. intros ->. unfold relu. by destruct (Rle_dec 0 0). Qed.



(** The small instance maps a frame to 0, or to NaN. *)
Lemma example_output_frame (a : scalar) :
  output_frame Example.W Example.unit_linear 1 1 1 leaky_relu relu [a]
  = [settle a].
Proof.
  destruct a as [r|]; [|by vm_compute].
  unfold output_frame, encoder_frame. rewrite layer_norm_1.
  destruct (nums_1 (ffn_frame Example.W 1 1 leaky_relu 0
                      [Num (beta (norm1 Example.W 0) 0)])) as [r' ->].
  { unfold ffn_frame. by rewrite length_zip_with, affine_length. }
  { apply ffn_frame_nums; [apply leaky_relu_numeric|by constructor]. }
  rewrite !layer_norm_1. unfold linear, dot. cbn.
  f_equal. apply relu_zero. ring.
Qed.




(** *** Frames of width 2 *)

















End ReferenceOneLayer.

(** ** The component over the reference collaborators *)

Section ReferenceComponent.
Import Reference.

(** On an input of the right shape the component over the reference
    collaborators returns. *)
Lemma reference_forward_total (W : weights) (init : linear_params)
    (g h : scalar → scalar)
    (output_size input_size nhead num_layers d_ffn : nat) (dropout : Q)
    (c : bool) (w0 w0' : unit * list (event scalar))
    (self : CNNTransformerSE scalar) (B T : nat) (x : tensor scalar)
    (pad : option padding_mask) (tr : list (event scalar)) :
  __init__ (TransformerInterface W) (Linear init)
    (Args.Make output_size input_size (activation_of h) nhead num_layers
       d_ffn dropout (activation_of g) c None) w0 = (Ok self, w0') →
  has_shape B T input_size x → pad_fits x pad →
  ∃ y, (forward get_lookahead_mask x pad (self, tr)).1 = Ok y.
Proof.
  intros Hinit Hx Hp.
  apply init_inv in Hinit as (enc & lin & act & Henc & Hlin & Hact & ->).
  apply TransformerInterface_inv in Henc as (a & Ha & ->).
  simpl in *. revert Ha. intros [= <-]. rewrite forward_run. simpl.
  unfold spec_pipeline, step_mask, step_embed, step_encode; simpl.
  set (kw := init_kwargs _).
  assert (Hrun : ∀ m,
    encoder_accepts input_size x m pad = true →
    ∃ out diag,
      encoder_stack W kw (λ t, Ok (elementwise g t)) x m pad = Ok (out, diag)
      ∧ has_shape B T input_size out).
  { intros m Hacc. unfold encoder_stack.
    change (ti_input_size kw) with input_size.
    change (ti_num_encoder_layers kw) with num_layers. rewrite Hacc.
    destruct (encoder_layers_total W kw g m pad (seq 0 num_layers) B T x Hx)
      as (out & diag & Hl).
    rewrite Hl. eexists _, diag. split; [done|].
    apply layer_norm_shape. by eapply (encoder_layers_shape W kw). }
  assert (Hrest : ∀ m, encoder_accepts input_size x m pad = true →
    ∃ y, match match encoder_stack W kw (λ t, Ok (elementwise g t)) x m pad
               with
               | Ok (primary, _) => Ok primary
               | Raise e => Raise e
               end with
         | Ok encoded =>
             match lin encoded with
             | Ok projected => act projected
             | Raise e => Raise e
             end
         | Raise e => Raise e
         end = Ok y).
  { intros m Hacc. destruct (Hrun m Hacc) as (out & diag & -> & Hout).
    revert Hlin Hact. intros [= <-] [= <-].
    rewrite (width_is_has_shape _ _ _ _ Hout). by eexists. }
  destruct c; simpl.
  - apply Hrest. by eapply encoder_accepts_lookahead.
  - apply Hrest. by eapply encoder_accepts_no_mask.
Qed.

(** *** The small instance *)

Lemma example_init (c : bool) (emb : option (module scalar)) :
  __init__ (TransformerInterface Example.W) (Linear Example.unit_linear)
    (Example.args c emb) (tt, [])
  = (Ok (Self (encoder_stack Example.W (init_kwargs (Example.args c emb))
                 (λ t, Ok (elementwise leaky_relu t)))
           emb c
           (λ x, if width_is 1 x
                 then Ok (framewise (linear 1 1 Example.unit_linear) x)
                 else shape_error)
           (λ x, Ok (elementwise relu x)) Unset),
     (tt, [Event (call_TransformerInterface
                    (init_kwargs (Example.args c emb))) None;
           Event (call_Linear 1 1 false) None;
           Event call_output_activation_class None])).
Proof. done. Qed.


(** A tensor of width 1 without NaN goes to zeros. *)
Lemma framewise_settle (f : list scalar → list scalar) (B T : nat)
    (z : tensor scalar) :
  (∀ r, f [Num r] = [Num 0]) → has_shape B T 1 z → all_num z →
  framewise f z = replicate B (replicate T [Num 0]).
Proof.
  intros Hf [HB Hz]%has_shape_Forall Hn. symmetry.
  apply replicate_as_Forall. unfold framewise. rewrite length_fmap.
  split; [done|]. rewrite Forall_fmap.
  apply Forall_lookup. intros b u Hu. simpl.
  destruct (Forall_lookup_1 _ _ _ _ Hz Hu) as [HT Hw].
  pose proof (Forall_lookup_1 _ _ _ _ Hn Hu) as Hnu.
  apply replicate_as_Forall. rewrite length_fmap. split; [done|].
  rewrite Forall_fmap. apply Forall_lookup. intros t v Hv. simpl.
  destruct (nums_1 v) as [r ->].
  - exact (Forall_lookup_1 _ _ _ _ Hw Hv).
  - exact (Forall_lookup_1 _ _ _ _ Hnu Hv).
  - by rewrite Hf.
Qed.

(** At width 1 the small instance returns 0 at every frame of an input
    without NaN, whatever the input. *)
Lemma example_forward_finite (c : bool) (B T : nat) (x : tensor scalar)
    (pad : option padding_mask) (tr : list (event scalar)) :
  has_shape B T 1 x → all_num x → pad_fits x pad → pad_keeps_first pad →
  (forward get_lookahead_mask x pad
     (Self (encoder_stack Example.W (init_kwargs (Example.args c None))
              (λ t, Ok (elementwise leaky_relu t)))
        None c
        (λ x, if width_is 1 x
              then Ok (framewise (linear 1 1 Example.unit_linear) x)
              else shape_error)
        (λ x, Ok (elementwise relu x)) Unset, tr)).1
  = Ok (replicate B (replicate T [Num 0])).
Proof.
  intros Hx Hn Hp Hk.
  rewrite (reference_forward_one_layer Example.W Example.unit_linear
             leaky_relu relu 1 1 1 1 (1 # 10)%Q c None (tt, []) _ _ B T x x
             pad tr (example_init c None) eq_refl Hx eq_refl Hp).
  f_equal. apply framewise_settle.
  - intros r. apply (example_output_frame (Num r)).
  - by apply attend_shape.
  - apply attend_batch_all_num; [|done..].
    destruct c; [apply open_mask_lookahead|apply open_mask_None].
Qed.

Lemma example_x_shape : has_shape 1 3 1 Example.x.
Proof. done. Qed.

Lemma example_x_all_num : all_num Example.x.
Proof. by repeat constructor. Qed.







Lemma pad_keeps_first_None : pad_keeps_first None.
Proof. by intros b. Qed.



















(** C10: when the instance is causal, the first thing [forward] does is to
    compute the lookahead mask of the raw input [x]; the mask is square, of
    the side of the time dimension of [x], it is what [attn_mask] holds
    afterwards, and the mask generator is not called again.  When an
    embedding module is configured (and returns), it is called next, on [x],
    and the encoder is then called on its result with that same mask: if the
    module changed the time dimension, the side of the mask is not the time
    dimension of the encoder input. *)
Theorem mask_is_sized_to_raw_input {R : Type} (self : CNNTransformerSE R)
    (tr : list (event R)) (x : tensor R) (pad : option padding_mask) :
  causal self = true →
  ∃ evs,
    (forward get_lookahead_mask x pad (self, tr)).2.2
      = tr ++ Event (call_get_lookahead_mask x) None :: evs ∧
    attn_mask (forward get_lookahead_mask x pad (self, tr)).2.1
      = Bound (Some (lookahead (time_dim x))) ∧
    length (lookahead (time_dim x)) = time_dim x ∧
    Forall (λ row, length row = time_dim x) (lookahead (time_dim x)) ∧
    Forall (λ ev, callee (ev_call ev) ≠ mask_generator) evs ∧
    ∀ emb x1,
      custom_emb_module self = Some emb → emb x = Ok x1 →
      ∃ evs',
        evs = Event (call_custom_emb_module x) None
              :: Event (call_encoder x1 (Some (lookahead (time_dim x))) pad)
                   (raised_by
                      (encoder self x1 (Some (lookahead (time_dim x))) pad))
              :: evs' ∧
        (time_dim x1 ≠ time_dim x →
         length (lookahead (time_dim x)) ≠ time_dim x1).
Proof.
  intros Hc.
  exists (drop 1 (spec_calls get_lookahead_mask self x pad)).
  rewrite forward_run. simpl.
  assert (Hlen : length (lookahead (time_dim x)) = time_dim x).
  { unfold lookahead. by rewrite length_fmap, length_seq. }
  assert (Hrows :
    Forall (λ row, length row = time_dim x) (lookahead (time_dim x))).
  { pose proof (lookahead_square (time_dim x)) as Hsq. symmetry in Hsq.
    apply replicate_as_Forall in Hsq as [_ Hsq].
    rewrite Forall_fmap in Hsq. eapply Forall_impl; [exact Hsq|].
    by intros row ->. }
  unfold spec_calls, spec_self, step_mask, step_embed, step_encode,
    then_calls, get_lookahead_mask. rewrite Hc. simpl.
  split; [done|]. split; [done|]. split; [done|]. split; [done|]. split.
  - destruct (custom_emb_module self) as [emb|]; simpl.
    + constructor; [done|].
      destruct (emb x) as [x1|]; [|constructor].
      constructor; [done|].
      destruct (encoder self x1 _ pad) as [[o dg]|]; [|constructor].
      constructor; [done|].
      destruct (output_layer self o); by repeat constructor.
    + constructor; [done|].
      destruct (encoder self x _ pad) as [[o dg]|]; [|constructor].
      constructor; [done|].
      destruct (output_layer self o); by repeat constructor.
  - intros emb x1 -> Hx1. simpl. rewrite Hx1. simpl.
    eexists. split; [reflexivity|]. intros Hne. by rewrite Hlen.
Qed.

(** An embedding module that halves the time dimension: the mask has side 4,
    the encoder input has 2 frames. *)
Lemma mask_is_sized_to_raw_input_witness :
  ∃ self,
    Example.net true (Some subsample) = Ok self ∧
    causal self = true ∧
    subsample Example.x4 = Ok [[[Num 1]; [Num 5]]] ∧
    attn_mask (forward get_lookahead_mask Example.x4 None (self, [])).2.1
      = Bound (Some (lookahead 4)) ∧
    length (lookahead 4) ≠ 2.
Proof.
  eexists. split; [exact (f_equal fst (example_init true (Some subsample)))|].
  split; [reflexivity|]. split; [reflexivity|].
  match goal with |- attn_mask (forward _ _ _ (?s, _)).2.1 = _ ∧ _ =>
    destruct (mask_is_sized_to_raw_input s [] Example.x4 None eq_refl)
      as (evs & _ & Hattr & _ & _ & _ & Hemb)
  end.
  split; [exact Hattr|].
  destruct (Hemb subsample [[[Num 1]; [Num 5]]] eq_refl eq_refl)
    as (evs' & _ & Hne).
  apply Hne. simpl. lia.
Defined.

(** The documented example: [net = CNNTransformerSE(output_size=257,
    input_size=256)] on an input of shape (8, 120, 256). *)
Lemma forward_output_shape_witness :
  ∃ self y,
    (__init__ (TransformerInterface Example.W) (Linear Example.unit_linear)
       (Args.defaults ReLU LeakyReLU 257 256) (tt, [])).1 = Ok self ∧
    has_shape 8 120 256
      (replicate 8 (replicate 120 (replicate 256 (Num 0)))) ∧
    (forward get_lookahead_mask
       (replicate 8 (replicate 120 (replicate 256 (Num 0)))) None
       (self, [])).1 = Ok y ∧
    has_shape 8 120 257 y.
Proof.
  assert (Hx : has_shape 8 120 256
                 (replicate 8 (replicate 120 (replicate 256 (Num 0))))).
  { apply has_shape_Forall. rewrite length_replicate. split; [reflexivity|].
    apply Forall_replicate. rewrite length_replicate. split; [reflexivity|].
    apply Forall_replicate. apply length_replicate. }
  revert Hx. generalize (replicate 8 (replicate 120 (replicate 256 (Num 0)))).
  intros x Hx.
  pose proof (init_run (TransformerInterface Example.W)
                (Linear Example.unit_linear)
                (Args.defaults ReLU LeakyReLU 257 256) [] _ _ _
                eq_refl eq_refl eq_refl) as Hinit.
  destruct (reference_forward_total Example.W Example.unit_linear
              leaky_relu relu 257 256 8 8 512 (1 # 10)%Q
              true (tt, []) _ _ 8 120 x None [] Hinit Hx I) as [y Hy].
  eexists _, y. split; [rewrite Hinit; reflexivity|]. split; [exact Hx|].
  split; [exact Hy|].
  destruct (forward get_lookahead_mask x None _) as [r w'] eqn:Hrun.
  simpl in Hy. subst r.
  exact (proj1 (proj2 (forward_output_shape
           (TransformerInterface Example.W)
           (Linear Example.unit_linear)
           get_lookahead_mask (Args.defaults ReLU LeakyReLU 257 256)
           (TransformerInterface_keeps_shape Example.W)
           (λ n_out n_in, Linear_projects Example.unit_linear n_out n_in
                            false)
           (activation_of_keeps_shape relu) eq_refl))
           eq_refl eq_refl (tt, []) _ _ x None [] y w' Hinit Hx Hrun).
Defined.

(** The small instance without embedding module against the same instance
    with the identity module. *)
Lemma forward_without_embedding_is_identity_witness :
  ∃ self,
    Example.net true None = Ok self ∧
    custom_emb_module self = None ∧
    (forward get_lookahead_mask Example.x None (self, [])).1
    = (forward get_lookahead_mask Example.x None
         (with_custom_emb_module (Some identity_module) self, [])).1.
Proof.
  eexists. split; [exact (f_equal fst (example_init true None))|].
  split; [reflexivity|].
  match goal with |- (forward _ _ _ (?s, _)).1 = _ =>
    destruct (forward_without_embedding_is_identity get_lookahead_mask s []
                Example.x None eq_refl) as (evs & evs_id & H1 & H2 & _)
  end.
  by rewrite H1, H2.
Defined.

(** The constructor on the arguments of the small instance. *)
Lemma init_delegates_witness :
  ∃ kwargs self,
    (__init__ (TransformerInterface Example.W) (Linear Example.unit_linear)
       (Example.args true None) (tt, [])).1 = Ok self ∧
    TransformerInterface Example.W kwargs = Ok (encoder self) ∧
    ti_num_encoder_layers kwargs = 1 ∧
    ti_num_decoder_layers kwargs = 0 ∧
    ti_positional_encoding kwargs = false.
Proof.
  destruct (init_delegates (TransformerInterface Example.W)
              (Linear Example.unit_linear)
              (Example.args true None) [] _ _ _ eq_refl eq_refl eq_refl)
    as (kwargs & self & Hrun & _ & _ & Hl & Hd & _ & _ & _ & Hp & He & _).
  exists kwargs, self. by rewrite Hrun.
Defined.

End ReferenceComponent.

(** ** More about the wiring *)

Section WiringMore.
Context {R : Type}.
Variable TransformerInterface : interface_args R → result (encoder_module R).
Variable Linear : nat → nat → bool → result (module R).
Variable get_lookahead_mask : tensor R → result mask.

(** The pipeline does not look at the [attn_mask] the instance holds. *)
Lemma spec_pipeline_attn_mask (a : attribute (option mask))
    (self : CNNTransformerSE R) (x : tensor R) (pad : option padding_mask) :
  spec_pipeline get_lookahead_mask (with_attn_mask a self) x pad
    = spec_pipeline get_lookahead_mask self x pad ∧
  spec_calls get_lookahead_mask (with_attn_mask a self) x pad
    = spec_calls get_lookahead_mask self x pad.
Proof. done. Qed.

(** X1: an instance with [causal=False] never calls the mask generator: the
    run is the same whatever the mask generator is (also one that always
    raises), the encoder is called with [src_mask=None] and the padding mask
    as given, and [attn_mask] is [None] afterwards. *)
Theorem noncausal_forward_skips_mask_generator (self : CNNTransformerSE R)
    (tr : list (event R)) (x : tensor R) (pad : option padding_mask) :
  causal self = false →
  (∀ other_mask : tensor R → result mask,
     forward other_mask x pad (self, tr)
     = forward get_lookahead_mask x pad (self, tr)) ∧
  ∃ evs,
    (forward get_lookahead_mask x pad (self, tr)).2.2 = tr ++ evs ∧
    Forall (λ ev, callee (ev_call ev) ≠ mask_generator) evs ∧
    (∀ ev src m p,
       ev ∈ evs → ev_call ev = call_encoder src m p → m = None ∧ p = pad) ∧
    attn_mask (forward get_lookahead_mask x pad (self, tr)).2.1 = Bound None.
Proof.
  intros Hc. split.
  - intros other_mask. rewrite !forward_run.
    unfold spec_pipeline, spec_self, spec_calls, step_mask. by rewrite Hc.
  - exists (spec_calls get_lookahead_mask self x pad).
    rewrite forward_run. simpl. split; [done|].
    unfold spec_self, spec_calls, step_mask, step_embed, step_encode,
      then_calls. rewrite Hc. simpl.
    destruct (custom_emb_module self) as [emb|]; simpl.
    + destruct (emb x) as [x1|]; simpl.
      * destruct (encoder self x1 None pad) as [[o dg]|]; simpl.
        -- destruct (output_layer self o); simpl;
             (split; [by repeat constructor|]); (split; [|done]);
             intros ev src m p Hin Hcall;
             repeat (apply elem_of_cons in Hin as [->|Hin];
                     [by simplify_eq/=|]);
             by apply elem_of_nil in Hin.
        -- (split; [by repeat constructor|]); (split; [|done]).
           intros ev src m p Hin Hcall.
           repeat (apply elem_of_cons in Hin as [->|Hin];
                   [by simplify_eq/=|]).
           by apply elem_of_nil in Hin.
      * (split; [by repeat constructor|]); (split; [|done]).
        intros ev src m p Hin Hcall.
        repeat (apply elem_of_cons in Hin as [->|Hin]; [by simplify_eq/=|]).
        by apply elem_of_nil in Hin.
    + destruct (encoder self x None pad) as [[o dg]|]; simpl.
      * destruct (output_layer self o); simpl;
          (split; [by repeat constructor|]); (split; [|done]);
          intros ev src m p Hin Hcall;
          repeat (apply elem_of_cons in Hin as [->|Hin];
                  [by simplify_eq/=|]);
          by apply elem_of_nil in Hin.
      * (split; [by repeat constructor|]); (split; [|done]).
        intros ev src m p Hin Hcall.
        repeat (apply elem_of_cons in Hin as [->|Hin]; [by simplify_eq/=|]).
        by apply elem_of_nil in Hin.
Qed.


(** X2: [forward] reads [self.attn_mask] only after it has assigned it, so
    nothing left by an earlier call leaks into a call: whatever the attribute
    held before (a mask of another length, [None], or nothing at all), the
    result and the calls made are the same. *)
Theorem forward_ignores_stale_attn_mask (self : CNNTransformerSE R)
    (tr : list (event R)) (x : tensor R) (pad : option padding_mask) :
  ∀ (a : attribute (option mask)) (tr' : list (event R)),
    (forward get_lookahead_mask x pad (with_attn_mask a self, tr')).1
      = (forward get_lookahead_mask x pad (self, tr)).1 ∧
    ∃ evs,
      (forward get_lookahead_mask x pad (self, tr)).2.2 = tr ++ evs ∧
      (forward get_lookahead_mask x pad (with_attn_mask a self, tr')).2.2
        = tr' ++ evs.
Proof.
  intros a tr'. rewrite !forward_run. simpl.
  destruct (spec_pipeline_attn_mask a self x pad) as [-> ->].
  split; [done|]. by eexists.
Qed.

(** X3: applying the embedding module by hand gives the same result: when
    the module returns [x1] on [x], the instance run on [x] returns what the
    same instance without embedding module returns on [x1], and leaves the
    same [attn_mask], provided the instance is not causal or the mask of
    [x1] is the mask of [x].  When the module raises (and the mask step
    before it did not), [forward] raises the same exception and the encoder
    is not called. *)
Theorem forward_embedding_composes (self : CNNTransformerSE R)
    (emb : module R) (tr : list (event R)) (x : tensor R)
    (pad : option padding_mask) :
  custom_emb_module self = Some emb →
  (∀ x1,
     emb x = Ok x1 →
     (causal self = true → get_lookahead_mask x1 = get_lookahead_mask x) →
     (forward get_lookahead_mask x pad (self, tr)).1
       = (forward get_lookahead_mask x1 pad
            (with_custom_emb_module None self, tr)).1 ∧
     attn_mask (forward get_lookahead_mask x pad (self, tr)).2.1
       = attn_mask (forward get_lookahead_mask x1 pad
                      (with_custom_emb_module None self, tr)).2.1) ∧
  (∀ e,
     emb x = Raise e →
     (causal self = true → ∃ m, get_lookahead_mask x = Ok m) →
     (forward get_lookahead_mask x pad (self, tr)).1 = Raise e ∧
     Forall (λ ev, callee (ev_call ev) ≠ encoder_stack)
       (drop (length tr)
          (forward get_lookahead_mask x pad (self, tr)).2.2)).
Proof.
  intros Hemb. split.
  - intros x1 Hx1 Hmask. rewrite !forward_run. simpl.
    unfold spec_pipeline, spec_self, step_mask, step_embed, step_encode.
    simpl. rewrite Hemb, Hx1.
    destruct (causal self) eqn:Hc; [|done].
    rewrite Hmask by done. by destruct (get_lookahead_mask x).
  - intros e He Hmask. rewrite forward_run. simpl.
    rewrite drop_app_length.
    unfold spec_pipeline, spec_calls, step_mask, step_embed, then_calls.
    simpl. rewrite Hemb, He.
    destruct (causal self) eqn:Hc; simpl.
    + destruct (Hmask eq_refl) as [m ->]. simpl.
      split; [done|]. by repeat constructor.
    + split; [done|]. by repeat constructor.
Qed.

(** X5: [forward] keeps the first component of what the encoder returns and
    nothing else: with an encoder that returns the same outputs (and raises
    the same exceptions) but other attention maps, the result, the
    [attn_mask] left behind and the calls made are the same. *)
Theorem forward_ignores_diagnostics (self : CNNTransformerSE R)
    (enc' : encoder_module R) (tr : list (event R)) (x : tensor R)
    (pad : option padding_mask) :
  (∀ src m p, fst <$> enc' src m p = fst <$> encoder self src m p) →
  (forward get_lookahead_mask x pad (with_encoder enc' self, tr)).1
    = (forward get_lookahead_mask x pad (self, tr)).1 ∧
  attn_mask (forward get_lookahead_mask x pad (with_encoder enc' self, tr)).2.1
    = attn_mask (forward get_lookahead_mask x pad (self, tr)).2.1 ∧
  (forward get_lookahead_mask x pad (with_encoder enc' self, tr)).2.2
    = (forward get_lookahead_mask x pad (self, tr)).2.2.
Proof.
  intros Henc. rewrite !forward_run. simpl.
  assert (Hfst : ∀ src m p,
    match enc' src m p with
    | Ok (primary, _) => Ok primary
    | Raise e => Raise e
    end
    = match encoder self src m p with
      | Ok (primary, _) => Ok primary
      | Raise e => Raise e
      end).
  { intros src m p. specialize (Henc src m p).
    destruct (enc' src m p) as [[o d]|], (encoder self src m p) as [[o' d']|];
      by simplify_eq/=. }
  assert (Hraised : ∀ src m p,
    raised_by (enc' src m p) = raised_by (encoder self src m p)).
  { intros src m p. specialize (Henc src m p).
    destruct (enc' src m p) as [[o d]|], (encoder self src m p) as [[o' d']|];
      by simplify_eq/=. }
  unfold spec_pipeline, spec_self, spec_calls, step_mask, step_embed,
    step_encode, then_calls. simpl.
  split; [|split].
  - destruct (if causal self then _ else _) as [m|]; [|done].
    destruct (match custom_emb_module self with
              | Some emb => emb x | None => Ok x end) as [x1|]; [|done].
    by rewrite Hfst.
  - by destruct (causal self); [destruct (get_lookahead_mask x)|].
  - f_equal. f_equal.
    destruct (if causal self then _ else _) as [m|]; [|done].
    f_equal.
    destruct (match custom_emb_module self with
              | Some emb => emb x | None => Ok x end) as [x1|]; [|done].
    by rewrite Hraised, Hfst.
Qed.


(** X4: [__init__] validates nothing itself and stops at the first
    constructor that raises, with that exception and no instance: when the
    transformer interface raises, [Linear] and the output activation class
    are not called; when [Linear] raises, the output activation class is not
    called.  It raises in no other case. *)
Theorem init_stops_at_first_failure (args : Args.t R) (tr : list (event R)) :
  (∀ e,
     TransformerInterface (init_kwargs args) = Raise e →
     __init__ TransformerInterface Linear args (tt, tr) =
     (Raise e,
      (tt, tr ++ [Event (call_TransformerInterface (init_kwargs args))
                    (Some e)]))) ∧
  (∀ enc e,
     TransformerInterface (init_kwargs args) = Ok enc →
     Linear (Args.output_size args) (Args.input_size args) false = Raise e →
     __init__ TransformerInterface Linear args (tt, tr) =
     (Raise e,
      (tt, tr ++ [Event (call_TransformerInterface (init_kwargs args)) None;
                  Event (call_Linear (Args.output_size args)
                           (Args.input_size args) false) (Some e)]))) ∧
  (∀ enc lin e,
     TransformerInterface (init_kwargs args) = Ok enc →
     Linear (Args.output_size args) (Args.input_size args) false = Ok lin →
     Args.output_activation args tt = Raise e →
     __init__ TransformerInterface Linear args (tt, tr) =
     (Raise e,
      (tt, tr ++ [Event (call_TransformerInterface (init_kwargs args)) None;
                  Event (call_Linear (Args.output_size args)
                           (Args.input_size args) false) None;
                  Event call_output_activation_class (Some e)]))) ∧
  (∀ e,
     (__init__ TransformerInterface Linear args (tt, tr)).1 = Raise e →
     TransformerInterface (init_kwargs args) = Raise e ∨
     Linear (Args.output_size args) (Args.input_size args) false = Raise e ∨
     Args.output_activation args tt = Raise e).
Proof.
  unfold init_kwargs, __init__, mbind, M_bind, mret, M_ret, invoke; simpl.
  repeat split.
  - by intros e ->.
  - intros enc e -> ->. simpl. by rewrite <- !app_assoc.
  - intros enc lin e -> -> ->. simpl. by rewrite <- !app_assoc.
  - intros e.
    destruct (TransformerInterface _) as [enc|e1]; simpl;
      [|intros [= ->]; by left].
    destruct (Linear _ _ _) as [lin|e2]; simpl;
      [|intros [= ->]; right; by left].
    destruct (Args.output_activation args tt) as [act|e3]; simpl; [done|].
    intros [= ->]. right; by right.
Qed.

End WiringMore.

(** ** The further statements at the small instance *)

Section WiringMoreInstances.
Import Reference.

(** The small instance with [causal=False], with a mask generator that always
    raises. *)
Lemma noncausal_forward_skips_mask_generator_witness :
  ∃ self y,
    Example.net false None = Ok self ∧
    causal self = false ∧
    (forward (λ _, Raise "IndexError"%string) Example.x None (self, [])).1
      = Ok y ∧
    (forward get_lookahead_mask Example.x None (self, [])).1 = Ok y.
Proof.
  pose proof (example_forward_finite false 1 3 Example.x None []
                example_x_shape example_x_all_num I pad_keeps_first_None)
    as Hy.
  eexists _, _. split; [exact (f_equal fst (example_init false None))|].
  split; [reflexivity|]. split; [|exact Hy].
  match goal with |- (forward ?g ?x ?p (?s, ?t)).1 = _ =>
    rewrite (proj1 (noncausal_forward_skips_mask_generator
                      get_lookahead_mask s t x p eq_refl) g)
  end.
  exact Hy.
Defined.

(** The small causal instance with the look-ahead convolution as embedding
    module, which keeps the time dimension, against the instance without
    embedding module on the convolved input. *)
Lemma forward_embedding_composes_witness :
  ∃ self x1,
    Example.net true (Some lookahead_conv) = Ok self ∧
    lookahead_conv Example.x = Ok x1 ∧
    get_lookahead_mask x1 = get_lookahead_mask Example.x ∧
    (forward get_lookahead_mask Example.x None (self, [])).1
    = (forward get_lookahead_mask x1 None
         (with_custom_emb_module None self, [])).1.
Proof.
  eexists _, _.
  split; [exact (f_equal fst (example_init true (Some lookahead_conv)))|].
  split; [reflexivity|]. split; [reflexivity|].
  match goal with |- (forward _ ?x ?p (?s, ?t)).1 = _ =>
    apply (proj1 (forward_embedding_composes get_lookahead_mask s
                    lookahead_conv t x p eq_refl))
  end; reflexivity.
Defined.

(** The small instance against the same instance whose encoder returns no
    attention maps. *)
Lemma forward_ignores_diagnostics_witness :
  ∃ self,
    Example.net true None = Ok self ∧
    (forward get_lookahead_mask Example.x None
       (with_encoder (without_diagnostics (encoder self)) self, [])).1
    = (forward get_lookahead_mask Example.x None (self, [])).1.
Proof.
  eexists. split; [exact (f_equal fst (example_init true None))|].
  match goal with |- (forward _ ?x ?p (with_encoder ?e ?s, ?t)).1 = _ =>
    apply (forward_ignores_diagnostics get_lookahead_mask s e t x p)
  end.
  intros src m p. unfold without_diagnostics.
  by destruct (encoder _ src m p) as [[o d]|].
Defined.

(** The arguments of the small instance with an output activation class that
    cannot be instantiated. *)
Lemma init_stops_at_first_failure_witness :
  (__init__ (TransformerInterface Example.W)
     (Linear Example.unit_linear)
     (Args.Make 1 1 broken_class 1 1 1 (1 # 10)%Q LeakyReLU true None)
     (tt, [])).1
  = Raise "TypeError: 'NoneType' object is not callable"%string.
Proof.
  by rewrite (proj1 (proj2 (proj2 (init_stops_at_first_failure
                (TransformerInterface Example.W)
                (Linear Example.unit_linear)
                (Args.Make 1 1 broken_class 1 1 1 (1 # 10)%Q LeakyReLU true
                   None) [])))
                _ _ _ eq_refl eq_refl eq_refl).
Defined.

End WiringMoreInstances.
